(** * Crawler team: worker loop, launcher and dispatch queue

    A shallow embedding of [systems/infinity-crawler/worker/worker.js] (the
    polling worker) and [systems/infinity-crawler/worker/launch_crawler_team.js]
    (the launcher), together with a model of the orchestrator's job queue and
    manifest, which the repository describes but does not ship.

    - [Json]: the JSON values the worker receives and sends, with the
      JavaScript property reads the worker performs on them.
    - [Worker]: [processJob] and [run] as interaction trees over the calls the
      worker makes to Node, Playwright and the network.
    - [Launcher]: the launcher as a reactive machine over the events Node
      delivers to it (child [close]/[error], [SIGINT], [SIGTERM]).
    - [Dispatch]: job queue, result sink and manifest. *)

From Stdlib Require Import String List ZArith Lia Bool DecimalString DecimalNat.
From stdpp Require Import gmap strings list.
From ITree Require Import ITree ITreeFacts Events.Exception.

Local Open Scope string_scope.
Set Warnings "-register-all".

(* ITree's own notations clash with stdpp's levels; these two are all we use. *)
Notation "x <- t ;; k" := (ITree.bind t (fun x => k))
  (at level 100, t at next level, right associativity, only parsing).
Notation "t ;; k" := (ITree.bind t (fun _ => k))
  (at level 100, right associativity, only parsing).

(* ===================================================================== *)
(** ** JSON values and the property reads of worker.js *)
(* ===================================================================== *)

Module Json.

(** A JavaScript value as [JSON.parse] produces it, plus [undefined], which
    property reads produce.  An object lists its own properties; a key
    occurs once and [lookup_prop] reads the first occurrence.  A string is
    its sequence of UTF-16 code units, one per character of the Rocq
    string.  A number is an integer: the worker computes lengths, and of
    any other number it only tests whether it is zero and whether it is
    above zero. *)
Inductive JsValue : Type :=
| JUndefined
| JNull
| JBool (b : bool)
| JNum (n : Z)
| JStr (s : string)
| JArr (items : list JsValue)
| JObj (props : list (string * JsValue)).

(** A thrown [Error]; the worker only ever reads its [message]. *)
Record JsError : Type := mkError { message : string }.

Fixpoint lookup_prop (key : string) (props : list (string * JsValue)) : JsValue :=
  match props with
  | [] => JUndefined
  | (k, v) :: rest => if String.eqb k key then v else lookup_prop key rest
  end.

Definition has_key (key : string) (v : JsValue) : bool :=
  match v with
  | JObj props => existsb (fun kv => String.eqb (fst kv) key) props
  | _ => false
  end.

(** [v.name] for a property name that is neither an index nor [length]
    (the worker reads [data.jobs] and [job.url]).  Reading a property of
    [null] or [undefined] throws a TypeError; arrays, strings, numbers and
    booleans have no such property. *)
Definition get_prop (v : JsValue) (name : string) : JsError + JsValue :=
  match v with
  | JUndefined =>
      inl (mkError ("Cannot read properties of undefined (reading '" ++ name ++ "')"))
  | JNull =>
      inl (mkError ("Cannot read properties of null (reading '" ++ name ++ "')"))
  | JObj props => inr (lookup_prop name props)
  | _ => inr JUndefined
  end.

(** JavaScript truthiness, as [||] tests it. *)
Definition truthy (v : JsValue) : bool :=
  match v with
  | JUndefined | JNull => false
  | JBool b => b
  | JNum n => negb (n =? 0)%Z
  | JStr s => negb (String.eqb s "")
  | JArr _ | JObj _ => true
  end.

(** [a || b] *)
Definition js_or (a b : JsValue) : JsValue := if truthy a then a else b.

(** [v.length] on a value that is neither [null] nor [undefined]. *)
Definition js_length (v : JsValue) : JsValue :=
  match v with
  | JArr items => JNum (Z.of_nat (length items))
  | JStr s => JNum (Z.of_nat (String.length s))
  | JObj props => lookup_prop "length" props
  | _ => JUndefined
  end.

(** [v[0]] on a value that is neither [null] nor [undefined]. *)
Definition js_index0 (v : JsValue) : JsValue :=
  match v with
  | JArr items => match items with [] => JUndefined | x :: _ => x end
  | JStr s => match s with EmptyString => JUndefined | String c _ => JStr (String c EmptyString) end
  | JObj props => lookup_prop "0" props
  | _ => JUndefined
  end.

(** [v > 0].  [undefined] converts to NaN and [null] to 0, so both give
    false; [true] converts to 1.  For strings, arrays and objects the
    comparison goes through JavaScript's string-to-number conversion, which
    is left to [coerce]. *)
Definition js_gt0 (coerce : JsValue -> bool) (v : JsValue) : bool :=
  match v with
  | JUndefined | JNull => false
  | JBool b => b
  | JNum n => (0 <? n)%Z
  | JStr _ | JArr _ | JObj _ => coerce v
  end.

(** What [JSON.stringify] keeps of an object literal: a property whose
    value is [undefined] is left out. *)
Definition is_undefined (v : JsValue) : bool :=
  match v with JUndefined => true | _ => false end.

Definition stringify_obj (props : list (string * JsValue)) : JsValue :=
  JObj (List.filter (fun kv => negb (is_undefined (snd kv))) props).

End Json.

(* ===================================================================== *)
(** ** worker.js *)
(* ===================================================================== *)

Module Worker.
Import Json.

Definition Browser := nat.
Definition Page := nat.

(** The argument of [fetch]. *)
Record Request : Type := mkRequest {
  req_url : string;
  req_method : string;
  req_headers : list (string * string);
  req_body : option JsValue;   (* the value that was [JSON.stringify]-ed *)
}.

(** What [fetch] resolves to: the HTTP status and a handle on the body. *)
Record Response : Type := mkResponse {
  http_status : Z;
  body_handle : nat;
}.

Variant LogArg : Type :=
| LText (s : string)
| LJson (v : JsValue).         (* [JSON.stringify(v)] *)

(** The calls the worker makes to its environment.  A promise that may
    reject answers [inl error]. *)
Variant nodeE : Type -> Type :=
| ChromiumLaunch (headless : bool) : nodeE (JsError + Browser)
| BrowserNewPage (b : Browser) : nodeE (JsError + Page)
| PageGoto (p : Page) (url : JsValue) (waitUntil : string) : nodeE (JsError + unit)
| PageContent (p : Page) : nodeE (JsError + string)
| BrowserClose (b : Browser) : nodeE (JsError + unit)
| Fetch (req : Request) : nodeE (JsError + Response)
| ResponseJson (r : Response) : nodeE (JsError + JsValue)
| ConsoleLog (arg : LogArg) : nodeE unit
| ConsoleError (label : string) (msg : string) : nodeE unit
| SetTimeout (ms : Z) : nodeE unit.

Definition workerE : Type -> Type := exceptE JsError +' nodeE.

Definition call {X} (e : nodeE X) : itree workerE X :=
  ITree.trigger (inr1 e).

Definition raise {X} (err : JsError) : itree workerE X :=
  Vis (inl1 (Throw err)) (fun v : void => match v with end).

(** [await e]: the promise's value, or its rejection thrown. *)
Definition await {X} (e : nodeE (JsError + X)) : itree workerE X :=
  r <- call e ;;
  match r with
  | inl err => raise err
  | inr x => Ret x
  end.

Definition lift {X} (r : JsError + X) : itree workerE X :=
  match r with
  | inl err => raise err
  | inr x => Ret x
  end.

(** *** Running a worker program against an environment *)

(** The environment: the answer to the [i]-th call. *)
Definition oracle : Type := forall X, nodeE X -> nat -> X.

(** A call together with the answer it got. *)
Variant obs : Type :=
| Obs {X} (e : nodeE X) (x : X).

Variant outcome (R : Type) : Type :=
| Returned (r : R)
| Uncaught (err : JsError)
| Running.                      (* out of steps, still going *)
Arguments Returned {R} r.
Arguments Uncaught {R} err.
Arguments Running {R}.

(** [exec fuel env i t]: run [t] for at most [fuel] steps, [i] calls having
    been made before; the calls made, in order, and how the run ended. *)
Fixpoint exec {R} (fuel : nat) (env : oracle) (i : nat) (t : itree workerE R)
  : list obs * outcome R :=
  match fuel with
  | O => ([], Running)
  | S fuel' =>
      match observe t with
      | RetF r => ([], Returned r)
      | TauF t' => exec fuel' env i t'
      | VisF e k =>
          match e with
          | inl1 (Throw err) => ([], Uncaught err)
          | inr1 e' =>
              let x := env _ e' i in
              let '(os, o) := exec fuel' env (S i) (k x) in
              (Obs e' x :: os, o)
          end
      end
  end.

(** Steps that are enough for one turn of the loop, whatever the answers. *)
Definition cycle_fuel : nat := 64.

(** *** What a run did *)

Definition is_post (req : Request) : bool := String.eqb (req_method req) "POST".

(** The requests sent with [fetch]. *)
Fixpoint requests (os : list obs) : list Request :=
  match os with
  | [] => []
  | Obs (Fetch req) _ :: rest => req :: requests rest
  | _ :: rest => requests rest
  end.

(** The bodies sent with a POST. *)
Fixpoint posted (os : list obs) : list JsValue :=
  match os with
  | [] => []
  | Obs (Fetch req) _ :: rest =>
      match is_post req, req_body req with
      | true, Some body => body :: posted rest
      | _, _ => posted rest
      end
  | _ :: rest => posted rest
  end.

(** The targets of [page.goto]. *)
Fixpoint gotos (os : list obs) : list JsValue :=
  match os with
  | [] => []
  | Obs (PageGoto _ url _) _ :: rest => url :: gotos rest
  | _ :: rest => gotos rest
  end.

(** The delays of the timers set. *)
Fixpoint timeouts (os : list obs) : list Z :=
  match os with
  | [] => []
  | Obs (SetTimeout ms) _ :: rest => ms :: timeouts rest
  | _ :: rest => timeouts rest
  end.

(** How many browsers were launched: [processJob] launches one on entry
    and nothing else does. *)
Fixpoint launches (os : list obs) : nat :=
  match os with
  | [] => 0
  | Obs (ChromiumLaunch _) _ :: rest => S (launches rest)
  | _ :: rest => launches rest
  end.

(** Whether the catch clause of [run] ran: it alone logs this label. *)
Definition caught (os : list obs) : bool :=
  existsb (fun o => match o with
                    | Obs (ConsoleError label _) _ => String.eqb label "Error polling jobs:"
                    | _ => false
                    end) os.

(** A call, without its answer. *)
Variant anycall : Type :=
| Call {X} (e : nodeE X).

Definition call_of (o : obs) : anycall :=
  match o with Obs e _ => Call e end.

(** The error a call was rejected with, if it was. *)
Definition rejection (o : obs) : option JsError :=
  match o with
  | Obs e x =>
      match e in nodeE X return X -> option JsError with
      | ChromiumLaunch _ | BrowserNewPage _ | PageContent _ | Fetch _ | ResponseJson _ =>
          fun x => match x with inl err => Some err | inr _ => None end
      | PageGoto _ _ _ | BrowserClose _ =>
          fun x => match x with inl err => Some err | inr _ => None end
      | ConsoleLog _ | ConsoleError _ _ | SetTimeout _ => fun _ => None
      end x
  end.

(** Two environments that answer alike, except that a POST which gets a
    response in one gets a response in the other too, possibly another. *)
Definition same_but_post_response (env1 env2 : oracle) : Prop :=
  forall X (e : nodeE X) (i : nat),
    env1 X e i = env2 X e i
    \/ match e in nodeE X return X -> X -> Prop with
       | Fetch req => fun x1 x2 =>
           is_post req = true /\ (exists r1, x1 = inr r1) /\ (exists r2, x2 = inr r2)
       | _ => fun _ _ => False
       end (env1 X e i) (env2 X e i).

(** The body shape the protocol asks for: [{ id, url, status, payload }]. *)
Definition spec_result_shape (body : JsValue) : bool :=
  has_key "id" body && has_key "url" body && has_key "status" body
  && has_key "payload" body.

Section Program.
(** [process.env.ORCHESTRATOR_URL] *)
Variable env_ORCHESTRATOR_URL : option string.
(** JavaScript's conversion to number, for [js_gt0]. *)
Variable coerce : JsValue -> bool.

Definition ORCHESTRATOR_URL : string :=
  match env_ORCHESTRATOR_URL with
  | Some s => if String.eqb s "" then "http://localhost:8000" else s
  | None => "http://localhost:8000"
  end.

(** The object literal of lines 13-18. *)
Definition result_of (url : JsValue) (html : string) : list (string * JsValue) :=
  [ ("url", url);
    ("bytes", JNum (Z.of_nat (String.length html)));
    ("status", JStr "success");
    ("html", JStr html) ].

Definition post_result (result : list (string * JsValue)) : Request :=
  {| req_url := ORCHESTRATOR_URL ++ "/results";
     req_method := "POST";
     req_headers := [("Content-Type", "application/json")];
     req_body := Some (stringify_obj result) |}.

Definition get_jobs : Request :=
  {| req_url := ORCHESTRATOR_URL ++ "/jobs";
     req_method := "GET";
     req_headers := [];
     req_body := None |}.

Definition processJob (job : JsValue) : itree workerE unit :=
  browser <- await (ChromiumLaunch true) ;;
  page <- await (BrowserNewPage browser) ;;
  url <- lift (get_prop job "url") ;;
  await (PageGoto page url "networkidle") ;;
  html <- await (PageContent page) ;;
  await (BrowserClose browser) ;;
  let result := result_of url html in
  try_catch
    (await (Fetch (post_result result)) ;; Ret tt)
    (fun error => call (ConsoleError "Failed to post result:" (message error))) ;;
  call (ConsoleLog (LJson (stringify_obj result))).

(** One turn of the [while (true)] loop of [run]. *)
Definition cycle : itree workerE unit :=
  try_catch
    (response <- await (Fetch get_jobs) ;;
     data <- await (ResponseJson response) ;;
     jobs_prop <- lift (get_prop data "jobs") ;;
     let jobs := js_or jobs_prop (JArr []) in
     if js_gt0 coerce (js_length jobs)
     then processJob (js_index0 jobs)
     else Ret tt)
    (fun error => call (ConsoleError "Error polling jobs:" (message error))) ;;
  call (SetTimeout 1000).

Definition run : itree workerE unit :=
  call (ConsoleLog (LText "Crawler worker started, polling for jobs...")) ;;
  ITree.forever cycle.

(** What the worker posts: the object of lines 13-18, serialised. *)
Definition result_body (body : JsValue) : Prop :=
  exists url html, body = stringify_obj (result_of url html).

(** The catch clause of [run] around what is left of the try block. *)
Definition guarded (rest : itree workerE unit) : itree workerE unit :=
  try_catch rest
    (fun error => call (ConsoleError "Error polling jobs:" (message error))).

(** The calls of [n] successive turns of the loop, the first of them
    starting as call number [i]. *)
Fixpoint iterations (n : nat) (env : oracle) (i : nat) : list (list obs) :=
  match n with
  | O => []
  | S n' =>
      let os := fst (exec cycle_fuel env i cycle) in
      os :: iterations n' env (i + length os)
  end.

End Program.

Definition started : obs :=
  Obs (ConsoleLog (LText "Crawler worker started, polling for jobs...")) tt.

(** The timer at the end of each turn of the loop. *)
Definition sleep : obs := Obs (SetTimeout 1000) tt.

(** [env] with the response to every POST replaced by [response]; a POST
    that [env] rejects stays rejected. *)
Definition with_post_responses (response : Request -> nat -> Response)
    (env : oracle) : oracle :=
  fun X e i =>
    match e in nodeE X return X -> X with
    | Fetch req => fun x =>
        if is_post req
        then match x with
             | inl err => inl err
             | inr _ => inr (response req i)
             end
        else x
    | _ => fun x => x
    end (env X e i).

(** The retry the protocol asks for: a request that was rejected is sent
    again later. *)
Definition spec_retried (os : list obs) : Prop :=
  forall os1 req err os2,
    os = (os1 ++ Obs (Fetch req) (inl err) :: os2)%list ->
    In req (requests os2).

(** *** Environments to run the worker in *)

Definition job_a : JsValue := JObj [("id", JStr "a"); ("url", JStr "http://a.example/")].
Definition job_b : JsValue := JObj [("id", JStr "b"); ("url", JStr "http://b.example/")].

(** A healthy orchestrator and browser: the first poll hands out [job_a]
    and [job_b], later polls nothing; a POST is answered with [status]. *)
Definition env_serving (status : Z) : oracle :=
  fun X e i =>
    match e in nodeE X return X with
    | ChromiumLaunch _ => inr 1
    | BrowserNewPage _ => inr 2
    | PageGoto _ _ _ => inr tt
    | PageContent _ => inr "<html></html>"
    | BrowserClose _ => inr tt
    | Fetch req => inr (mkResponse (if is_post req then status else 200) i)
    | ResponseJson r =>
        inr (JObj [("jobs", if Nat.eqb (body_handle r) 1 then JArr [job_a; job_b] else JArr [])])
    | ConsoleLog _ => tt
    | ConsoleError _ _ => tt
    | SetTimeout _ => tt
    end.

(** The orchestrator cannot be reached: every [fetch] is rejected. *)
Definition env_down : oracle :=
  fun X e i =>
    match e in nodeE X return X with
    | Fetch _ => inl (mkError "fetch failed")
    | e' => env_serving 200 _ e' i
    end.

(** Polling works, posting a result is rejected. *)
Definition env_post_down : oracle :=
  fun X e i =>
    match e in nodeE X return X with
    | Fetch req =>
        if is_post req then inl (mkError "fetch failed")
        else inr (mkResponse 200 i)
    | e' => env_serving 200 _ e' i
    end.

(** The page cannot be loaded. *)
Definition env_goto_fails : oracle :=
  fun X e i =>
    match e in nodeE X return X with
    | PageGoto _ _ _ => inl (mkError "net::ERR_NAME_NOT_RESOLVED")
    | e' => env_serving 200 _ e' i
    end.

End Worker.

(* ===================================================================== *)
(** ** launch_crawler_team.js *)
(* ===================================================================== *)

Module Launcher.

(** The signals the launcher handles and forwards. *)
Variant Signal : Type := SIGINT | SIGTERM.

Definition signal_name (s : Signal) : string :=
  match s with
  | SIGINT => "SIGINT"
  | SIGTERM => "SIGTERM"
  end.

(** What the launcher does to the outside world.  A child process is named
    by its position in [workers]; [Spawn] leaves out the [cwd] option, which
    is always the launcher's own directory. *)
Variant Effect : Type :=
| ConsoleLog (msg : string)
| ConsoleError (label : string) (err : string)
| Spawn (command : string) (args : list string) (stdio : string)
| Kill (child : nat) (signal : string)
| Exit (code : Z).

(** What Node delivers to the launcher's handlers. *)
Variant Input : Type :=
| ChildClose (child : nat) (code : option Z)   (* [null] when killed by a signal *)
| ChildError (child : nat) (err : string)
| Sig (s : Signal).

(** [workers] holds the [workerId] of each child spawned, in [push] order;
    [exited] is the status given to [process.exit], once called. *)
Record State : Type := mkState {
  workers : list string;
  exited : option Z;
}.

Definition NUM_WORKERS : nat := 3.

Definition nat_to_string (n : nat) : string :=
  NilEmpty.string_of_uint (Nat.to_uint n).

(** [`${code}`] *)
Definition code_to_string (code : option Z) : string :=
  match code with
  | None => "null"
  | Some z => NilEmpty.string_of_int (Z.to_int z)
  end.

Definition workerId (i : nat) : string := "worker-" ++ nat_to_string (i + 1).

(** The body of the [for] loop, for [i = from .. from + count - 1]. *)
Fixpoint spawn_loop (count from : nat) (ws : list string) : list string * list Effect :=
  match count with
  | O => (ws, [])
  | S count' =>
      let id := workerId from in
      let '(ws', effs) := spawn_loop count' (S from) (ws ++ [id])%list in
      (ws',
       ConsoleLog ("Starting " ++ id ++ "...")
         :: Spawn "node" ["worker.js"; id] "inherit"
         :: effs)
  end.

(** The module body, up to the registration of the signal handlers. *)
Definition startup : State * list Effect :=
  let '(ws, effs) := spawn_loop NUM_WORKERS 0 [] in
  (mkState ws None,
   (ConsoleLog ("Launching " ++ nat_to_string NUM_WORKERS ++ " crawler workers...")
      :: effs
      ++ [ConsoleLog "Crawler team launched. Press Ctrl+C to stop all workers."])%list).

(** [workers.forEach((worker) => worker.kill(signal))] *)
Definition kill_all (ws : list string) (signal : string) : list Effect :=
  List.map (fun child => Kill child signal) (seq 0 (length ws)).

(** One handler run.  After [process.exit] nothing runs any more. *)
Definition react (st : State) (input : Input) : State * list Effect :=
  match exited st with
  | Some _ => (st, [])
  | None =>
      match input with
      | ChildClose child code =>
          match nth_error (workers st) child with
          | Some id =>
              (st, [ConsoleLog (id ++ " exited with code " ++ code_to_string code)])
          | None => (st, [])
          end
      | ChildError child err =>
          match nth_error (workers st) child with
          | Some id => (st, [ConsoleError (id ++ " error:") err])
          | None => (st, [])
          end
      | Sig s =>
          (mkState (workers st) (Some 0%Z),
           (ConsoleLog (String (Ascii.ascii_of_nat 10) "Shutting down crawler team...")
              :: kill_all (workers st) (signal_name s)
              ++ [Exit 0])%list)
      end
  end.

Fixpoint react_all (st : State) (inputs : list Input) : State * list Effect :=
  match inputs with
  | [] => (st, [])
  | input :: rest =>
      let '(st1, effs1) := react st input in
      let '(st2, effs2) := react_all st1 rest in
      (st2, (effs1 ++ effs2)%list)
  end.

(** The launcher from its start, fed [inputs]. *)
Definition launch (inputs : list Input) : State * list Effect :=
  let '(st0, effs0) := startup in
  let '(st, effs) := react_all st0 inputs in
  (st, (effs0 ++ effs)%list).

Definition is_spawn (e : Effect) : bool :=
  match e with Spawn _ _ _ => true | _ => false end.

Definition is_kill_of (child : nat) (signal : string) (e : Effect) : bool :=
  match e with
  | Kill c s => Nat.eqb c child && String.eqb s signal
  | _ => false
  end.

Definition is_close_of (child : nat) (input : Input) : bool :=
  match input with
  | ChildClose c _ => Nat.eqb c child
  | _ => false
  end.

(** The inputs whose handler ran: those delivered before [process.exit]. *)
Fixpoint handled (st : State) (inputs : list Input) : list Input :=
  match inputs with
  | [] => []
  | input :: rest =>
      match exited st with
      | Some _ => []
      | None => input :: handled (fst (react st input)) rest
      end
  end.

(** The shutdown the protocol asks for: by the time the launcher exits,
    every worker has been seen to stop or has been force-terminated. *)
Definition spec_shutdown (inputs : list Input) : Prop :=
  let '(st, effs) := launch inputs in
  forall child, child < length (workers st) ->
    existsb (is_close_of child) (handled (fst startup) inputs) = true
    \/ existsb (is_kill_of child "SIGKILL") effs = true.

(** The restart the protocol asks for: a worker that exits is spawned
    again, so more processes are spawned than at startup. *)
Definition spec_respawn (inputs : list Input) : Prop :=
  NUM_WORKERS < length (List.filter is_spawn (snd (launch inputs))).

End Launcher.

(* ===================================================================== *)
(** ** The orchestrator's job queue, result sink and manifest *)
(* ===================================================================== *)

Module Dispatch.
Local Open Scope list_scope.
Local Open Scope nat_scope.

(** Modelled from the spec: the Job and its queue entries (the
    orchestrator that owns them is not among the sources).  A job has a
    unique identifier, a target URL and an enqueue timestamp; the queue
    counts how often it was requeued. *)
Record Job : Type := mkJob {
  job_id : string;
  job_url : string;
  enqueued_at : nat;
}.

Record Entry : Type := mkEntry {
  entry_job : Job;
  requeues : nat;
}.

(** Modelled from the spec: a lease, the time-bounded assignment of a job
    to a poller (the orchestrator is not among the sources). *)
Record Lease : Type := mkLease {
  lease_entry : Entry;
  lease_expiry : nat;
}.

(** Modelled from the spec: the job identifier of a queue entry and of a
    lease (the orchestrator is not among the sources). *)
Definition entry_id (e : Entry) : string := job_id (entry_job e).

Definition lease_id (l : Lease) : string := entry_id (lease_entry l).

(** Modelled from the spec: the Job Queue (the orchestrator is not among
    the sources).  [pending] is the unleased pool in FIFO order, [leased]
    the outstanding leases, [completed] the identifiers completed, [dead]
    the dead-letter set. *)
Record Queue : Type := mkQueue {
  pending : list Entry;
  leased : list Lease;
  completed : gset string;
  dead : list Entry;
}.

(** Modelled from the spec: the lease window and the requeue limit (the
    orchestrator's configuration is not among the sources). *)
Record Policy : Type := mkPolicy {
  lease_window : nat;
  max_requeues : nat;
}.

(** Modelled from the spec: the status of a Result (the orchestrator is not
    among the sources). *)
Variant Status : Type := success | failure.

(** Modelled from the spec: a Result as submitted (the orchestrator is not
    among the sources); the identifier may be missing from a malformed
    body. *)
Record Result : Type := mkResult {
  result_id : option string;
  result_worker : string;
  result_payload : string;
  result_status : Status;
  result_time : nat;
}.

(** Modelled from the spec: the Dispatch Server's state (the orchestrator
    is not among the sources): the queue, the Result Sink in
    submission-received order, and the Manifest, an append-only list of
    (job identifier, position in the sink). *)
Record Server : Type := mkServer {
  queue : Queue;
  sink : list Result;
  manifest : list (string * nat);
}.

(** Modelled from the spec: the identifiers the queue holds, unleased,
    leased or dead-lettered (the orchestrator is not among the sources). *)
Definition queue_ids (q : Queue) : list string :=
  (entry_id <$> pending q) ++ (lease_id <$> leased q) ++ (entry_id <$> dead q).

(** Modelled from the spec: what the server answers (the orchestrator is
    not among the sources). *)
Variant Reply : Type :=
| Accepted                 (* 200 *)
| Malformed                (* 400 *)
| Duplicate                (* 409, already in the Manifest *)
| Unknown                  (* 409, not leased *)
| DuplicateJobError
| Jobs (jobs : list Job)
| Done.

(** Modelled from the spec: [enqueue] (the orchestrator is not among the
    sources); fails when the identifier exists in the queue or in the
    completed set. *)
Definition enqueue (job : Job) (q : Queue) : option Queue :=
  if decide (job_id job ∈ queue_ids q ∨ job_id job ∈ completed q) then None
  else Some (mkQueue (pending q ++ [mkEntry job 0]) (leased q) (completed q) (dead q)).

(** Modelled from the spec: [lease] (the orchestrator is not among the
    sources); hands out up to [count] unleased jobs in FIFO order and marks
    them leased until [now + lease_window]. *)
Definition lease (pol : Policy) (count now : nat) (q : Queue) : list Job * Queue :=
  let taken := take count (pending q) in
  (entry_job <$> taken,
   mkQueue (drop count (pending q))
     (leased q ++ ((λ e, mkLease e (now + lease_window pol)) <$> taken))
     (completed q) (dead q)).

(** Modelled from the spec: [complete] (the orchestrator is not among the
    sources); removes a job from the leased set for good. *)
Definition complete (id : string) (q : Queue) : Queue :=
  if decide (id ∈ lease_id <$> leased q)
  then mkQueue (pending q) (filter (λ l, lease_id l ≠ id) (leased q))
         ({[ id ]} ∪ completed q) (dead q)
  else q.

(** Modelled from the spec: a lease has expired at [now] when its expiry
    is not after [now] (the orchestrator is not among the sources). *)
Definition expired (now : nat) (l : Lease) : Prop := lease_expiry l ≤ now.

#[global] Instance expired_dec now l : Decision (expired now l) :=
  decide (lease_expiry l ≤ now).

(** Modelled from the spec: a reclaimed entry has been requeued once more,
    and stays in circulation while its counter is within the limit (the
    orchestrator is not among the sources). *)
Definition requeued (e : Entry) : Entry := mkEntry (entry_job e) (S (requeues e)).

Definition within_limit (pol : Policy) (e : Entry) : Prop :=
  requeues e ≤ max_requeues pol.

#[global] Instance within_limit_dec pol e : Decision (within_limit pol e) :=
  decide (requeues e ≤ max_requeues pol).

(** Modelled from the spec: [reclaim] (the orchestrator is not among the
    sources); expired leases go back to the end of the unleased pool with
    their requeue counter incremented, or to the dead-letter set once the
    counter exceeds [max_requeues]. *)
Definition reclaim (pol : Policy) (now : nat) (q : Queue) : Queue :=
  let back := requeued ∘ lease_entry <$> filter (expired now) (leased q) in
  mkQueue (pending q ++ filter (within_limit pol) back)
    (filter (λ l, ¬ expired now l) (leased q))
    (completed q)
    (dead q ++ filter (λ e, ¬ within_limit pol e) back).

(** Modelled from the spec: [submitResult] in its strict mode (the
    orchestrator is not among the sources): the identifier must be present,
    not yet in the Manifest, and currently leased; then the job is
    completed, the Result appended to the sink and the Manifest updated. *)
Definition submitResult (r : Result) (s : Server) : Reply * Server :=
  match result_id r with
  | None => (Malformed, s)
  | Some id =>
      if decide (id ∈ (manifest s).*1) then (Duplicate, s)
      else if decide (id ∈ lease_id <$> leased (queue s))
      then (Accepted,
            mkServer (complete id (queue s)) (sink s ++ [r])
              (manifest s ++ [(id, length (sink s))]))
      else (Unknown, s)
  end.

(** Modelled from the spec: the operations of the server, each one atomic,
    as the mutual exclusion on the queue makes them (the orchestrator is
    not among the sources). *)
Variant Op : Type :=
| Enqueue (job : Job)
| PullJobs (max now : nat)
| SubmitResult (r : Result)
| Reclaim (now : nat).

(** Modelled from the spec: one operation, through the Dispatch Server
    (the orchestrator is not among the sources). *)
Definition step (pol : Policy) (s : Server) (op : Op) : Reply * Server :=
  match op with
  | Enqueue job =>
      match enqueue job (queue s) with
      | Some q => (Done, mkServer q (sink s) (manifest s))
      | None => (DuplicateJobError, s)
      end
  | PullJobs max now =>
      let '(jobs, q) := lease pol max now (queue s) in
      (Jobs jobs, mkServer q (sink s) (manifest s))
  | SubmitResult r => submitResult r s
  | Reclaim now => (Done, mkServer (reclaim pol now (queue s)) (sink s) (manifest s))
  end.

(** Modelled from the spec: the server at startup (the orchestrator is not
    among the sources). *)
Definition empty : Server := mkServer (mkQueue [] [] ∅ []) [] [].

(** Modelled from the spec: a server state as the operations keep it (the
    orchestrator is not among the sources): no identifier twice in the
    queue, none both queued and completed, the Manifest listing exactly
    the completed identifiers, once each, each with its Result in the
    sink. *)
Record consistent (s : Server) : Prop := mkConsistent {
  queue_nodup : NoDup (queue_ids (queue s));
  queue_not_completed : ∀ id, id ∈ queue_ids (queue s) → id ∉ completed (queue s);
  manifest_completed : ∀ id, id ∈ completed (queue s) ↔ id ∈ (manifest s).*1;
  manifest_nodup : NoDup (manifest s).*1;
  manifest_in_sink :
    ∀ id loc, (id, loc) ∈ manifest s →
      ∃ r, sink s !! loc = Some r ∧ result_id r = Some id;
}.

(** Modelled from the spec: the server [s] after [ops] (the orchestrator is
    not among the sources). *)
Definition run_from (pol : Policy) (s : Server) (ops : list Op) : Server :=
  fold_left (fun s op => snd (step pol s op)) ops s.

(** Modelled from the spec: the server after [ops], in any interleaving of
    its callers (the orchestrator is not among the sources). *)
Definition run (pol : Policy) (ops : list Op) : Server :=
  run_from pol empty ops.

Definition is_reclaim (op : Op) : bool :=
  match op with
  | Reclaim _ => true
  | _ => false
  end.

(** Modelled from the spec: the replies to [ops], in order (the
    orchestrator is not among the sources). *)
Fixpoint replies (pol : Policy) (s : Server) (ops : list Op) : list Reply :=
  match ops with
  | [] => []
  | op :: rest => fst (step pol s op) :: replies pol (snd (step pol s op)) rest
  end.

End Dispatch.

(* ===================================================================== *)
(** ** worker.js and launch_crawler_team.js: the rest *)
(* ===================================================================== *)

Module WorkerMore.
Import Json Worker.

(** Line 51, [run().catch(on_rejected)]: [on_rejected] runs if [run]
    throws. The source passes [console.error]. *)
Definition main_with (env_ORCHESTRATOR_URL : option string) (coerce : JsValue -> bool)
    (on_rejected : JsError -> itree workerE unit) : itree workerE unit :=
  try_catch (run env_ORCHESTRATOR_URL coerce) on_rejected.

(** A job with no [url] property. *)
Definition job_no_url : JsValue := JObj [("id", JStr "c")].

(** The orchestrator answers [null]. *)
Definition env_null_data : oracle :=
  fun X e i =>
    match e in nodeE X return X with
    | ResponseJson _ => inr JNull
    | e' => env_serving 200 _ e' i
    end.

(** The browser cannot be closed. *)
Definition env_close_fails : oracle :=
  fun X e i =>
    match e in nodeE X return X with
    | BrowserClose _ => inl (mkError "Target closed")
    | e' => env_serving 200 _ e' i
    end.

End WorkerMore.

Module LauncherMore.
Import Launcher.

Definition is_sig (input : Input) : bool :=
  match input with
  | Sig _ => true
  | _ => false
  end.

(** An effect that only writes to the console. *)
Definition is_console (e : Effect) : bool :=
  match e with
  | ConsoleLog _ | ConsoleError _ _ => true
  | _ => false
  end.

(** The [spawn] of the loop's turn [i]. *)
Definition spawn_of (i : nat) : Effect :=
  Spawn "node" ["worker.js"; workerId i] "inherit".

End LauncherMore.

(* ===================================================================== *)
(** * Properties *)
(* ===================================================================== *)

(** ** Running interaction trees: general facts *)

Module WorkerFacts.
Import Json Worker.
Local Open Scope list_scope.

Lemma exec_S {R} fuel env i (t : itree workerE R) :
  exec (S fuel) env i t =
    match observe t with
    | RetF r => ([], Returned r)
    | TauF t' => exec fuel env i t'
    | VisF e k =>
        match e with
        | inl1 (Throw err) => ([], Uncaught err)
        | inr1 e' =>
            let x := env _ e' i in
            let '(os, o) := exec fuel env (S i) (k x) in
            (Obs e' x :: os, o)
        end
    end.
Proof. reflexivity. Qed.

(** [exec] only looks at a tree through [observe]. *)
Lemma exec_observe {R} fuel env i (t1 t2 : itree workerE R) :
  observe t1 = observe t2 -> exec fuel env i t1 = exec fuel env i t2.
Proof.
  intros H. destruct fuel; [reflexivity|]. rewrite !exec_S, H. reflexivity.
Qed.

(** A run that returns, followed by its continuation. *)
Lemma exec_bind {R T} (k : R -> itree workerE T) fuel :
  forall env i (t : itree workerE R) os r,
    exec fuel env i t = (os, Returned r) ->
    forall fuel2, exists fuel',
      exec fuel' env i (ITree.bind t k)
      = (os ++ fst (exec fuel2 env (i + length os) (k r)),
         snd (exec fuel2 env (i + length os) (k r))).
Proof.
  induction fuel as [|fuel IH]; intros env i t os r H fuel2; [discriminate|].
  rewrite exec_S in H.
  destruct (observe t) as [r0|t'|X e k0] eqn:Ht.
  - injection H as <- <-. exists fuel2. cbn [length app]. rewrite Nat.add_0_r.
    rewrite (exec_observe fuel2 env i (ITree.bind t k) (k r0)).
    + destruct (exec fuel2 env i (k r0)); reflexivity.
    + rewrite observe_bind, Ht. reflexivity.
  - destruct (IH env i t' os r H fuel2) as [f' Hf'].
    exists (S f'). rewrite exec_S, observe_bind, Ht. cbn. exact Hf'.
  - destruct e as [ex|e'].
    + destruct ex. discriminate.
    + cbn zeta in H.
      destruct (exec fuel env (S i) (k0 (env X e' i))) as [os' o'] eqn:Hk.
      injection H as <- ->.
      destruct (IH env (S i) _ os' r Hk fuel2) as [f' Hf'].
      exists (S f'). rewrite exec_S, observe_bind, Ht. cbn.
      rewrite Hf'. cbn [length]. rewrite Nat.add_succ_r. reflexivity.
Qed.

(** Every call costs a step. *)
Lemma exec_length {R} fuel :
  forall env i (t : itree workerE R), length (fst (exec fuel env i t)) <= fuel.
Proof.
  induction fuel as [|fuel IH]; intros env i t; [cbn; lia|].
  rewrite exec_S.
  destruct (observe t) as [r0|t'|X e k0].
  - cbn; lia.
  - specialize (IH env i t'). lia.
  - destruct e as [[err]|e']; [cbn; lia|].
    cbn zeta. specialize (IH env (S i) (k0 (env X e' i))).
    destruct (exec fuel env (S i) (k0 (env X e' i))). cbn in *. lia.
Qed.

(** A run still going after [fuel'] steps was going after fewer, and had
    made the first of its calls. *)
Lemma exec_running_prefix {R} fuel :
  forall fuel' env i (t : itree workerE R) os',
    exec fuel' env i t = (os', Running) -> fuel <= fuel' ->
    exists os, exec fuel env i t = (os, Running) /\ os `prefix_of` os'.
Proof.
  induction fuel as [|fuel IH]; intros fuel' env i t os' H Hle.
  - exists []. split; [reflexivity|]. apply prefix_nil.
  - destruct fuel' as [|fuel']; [lia|].
    rewrite exec_S in H. rewrite exec_S.
    destruct (observe t) as [r0|t'|X e k0].
    + discriminate.
    + apply (IH fuel'); [exact H | lia].
    + destruct e as [[err]|e']; [discriminate|].
      cbn zeta in *.
      destruct (exec fuel' env (S i) (k0 (env X e' i))) as [os1 o1] eqn:Hk.
      injection H as <- ->.
      destruct (IH fuel' env (S i) _ os1 Hk ltac:(lia)) as (os & Hos & Hpre).
      rewrite Hos. eexists. split; [reflexivity|].
      apply prefix_cons, Hpre.
Qed.

(** [exec] asks the environment for its answers and nothing else. *)
Lemma exec_ext {R} (env1 env2 : oracle) :
  (forall X e i, env1 X e i = env2 X e i) ->
  forall fuel i (t : itree workerE R), exec fuel env1 i t = exec fuel env2 i t.
Proof.
  intros Hext. induction fuel as [|fuel IH]; intros i t; [reflexivity|].
  rewrite !exec_S.
  destruct (observe t) as [r0|t'|X e k0]; [reflexivity | apply IH |].
  destruct e as [[err]|e']; [reflexivity|].
  cbn zeta. rewrite Hext, IH. reflexivity.
Qed.

(** A loop whose body always returns runs turn after turn. *)
Lemma exec_forever {T} (body : itree workerE unit) (body_fuel : nat)
    (turns : nat -> oracle -> nat -> list (list obs)) :
  (forall env i, snd (exec body_fuel env i body) = Returned tt) ->
  (forall env i, turns 0 env i = []) ->
  (forall n env i,
      turns (S n) env i
      = fst (exec body_fuel env i body)
          :: turns n env (i + length (fst (exec body_fuel env i body)))) ->
  forall n env i, exists fuel,
    exec fuel env i (ITree.forever body : itree workerE T)
    = (concat (turns n env i), Running).
Proof.
  intros Hret H0 HS. induction n as [|n IH]; intros env i.
  - exists 0. rewrite H0. reflexivity.
  - set (os := fst (exec body_fuel env i body)).
    assert (Hb : exec body_fuel env i body = (os, Returned tt)).
    { specialize (Hret env i). subst os.
      destruct (exec body_fuel env i body); cbn in *; congruence. }
    destruct (IH env (i + length os)) as [f Hf].
    destruct (exec_bind (fun _ : unit => Tau (ITree.forever body : itree workerE T))
                body_fuel env i body os tt Hb (S f)) as [f' Hf'].
    exists f'.
    rewrite (exec_observe f' env i _ _ (observing_observe (unfold_forever_ body))).
    rewrite Hf'. rewrite exec_S. cbn [observe _observe]. rewrite Hf. cbn [fst snd].
    rewrite HS. reflexivity.
Qed.

End WorkerFacts.

(** ** worker.js *)

Module WorkerProofs.
Import Json Worker WorkerFacts.
Local Open Scope list_scope.

Arguments exec : simpl never.

(** Symbolic execution: one step of [exec], then whatever answer the
    environment gives to the call that comes up. *)
Ltac red_obs :=
  lazy -[exec get_prop js_gt0 js_length js_or js_index0 stringify_obj
         result_of ORCHESTRATOR_URL String.append].
Ltac step := rewrite exec_S; red_obs.
Ltac answer :=
  match goal with
  | H : ?f ?X ?e ?i = _ |- context [?f ?X ?e ?i] =>
      lazymatch type of f with oracle => rewrite H end
  | H : get_prop ?v ?n = _ |- context [get_prop ?v ?n] => rewrite H
  | H : js_gt0 ?c ?v = _ |- context [js_gt0 ?c ?v] => rewrite H
  | H : js_index0 ?v = _ |- context [js_index0 ?v] => rewrite H
  | env : oracle |- context [?f (sum ?A ?B) ?e ?i] =>
      constr_eq f env;
      let err := fresh "err" in let x := fresh "x" in
      destruct (env (sum A B) e i) as [err|x] eqn:?
  | env : oracle |- context [?f unit ?e ?i] =>
      constr_eq f env; destruct (env unit e i)
  | |- context [match get_prop ?v ?n with inl _ => _ | inr _ => _ end] =>
      let err := fresh "err" in let x := fresh "x" in
      destruct (get_prop v n) as [err|x] eqn:?
  | |- context [if ?b then _ else _] => destruct b eqn:?
  end.
Ltac walk := repeat first [step | answer; red_obs].
Ltac finish :=
  lazy -[stringify_obj result_of ORCHESTRATOR_URL String.append result_body
         get_prop js_gt0 js_length js_or js_index0].

Lemma posted_app os1 os2 : posted (os1 ++ os2) = posted os1 ++ posted os2.
Proof.
  induction os1 as [|[X e x] os1 IH]; [reflexivity|].
  destruct e; cbn; try exact IH.
  destruct (is_post req), (req_body req); cbn; congruence.
Qed.

Lemma posted_concat oss : posted (concat oss) = concat (List.map posted oss).
Proof.
  induction oss as [|os oss IH]; [reflexivity|].
  cbn. rewrite posted_app, IH. reflexivity.
Qed.

Section Worker.
Variable envURL : option string.
Variable coerce : JsValue -> bool.

Local Abbreviation processJob := (processJob envURL).
Local Abbreviation cycle := (cycle envURL coerce).
Local Abbreviation run := (run envURL coerce).
Local Abbreviation iterations := (iterations envURL coerce).
Local Abbreviation get_jobs := (get_jobs envURL).
Local Abbreviation post_result := (post_result envURL).

(** *** One call of [processJob] *)

(** [processJob] ends within [cycle_fuel] steps.  Either it throws,
    having posted nothing, or it returns, having loaded the job's [url]
    and posted one result for it. *)
Lemma processJob_inv job env i os o :
  exec cycle_fuel env i (processJob job) = (os, o) ->
  match o with
  | Uncaught _ => posted os = []
  | Returned _ =>
      exists url html,
        get_prop job "url" = inr url
        /\ gotos os = [url]
        /\ requests os = [post_result (result_of url html)]
        /\ posted os = [stringify_obj (result_of url html)]
  | Running => False
  end.
Proof.
  unfold cycle_fuel, Worker.processJob. revert os o.
  walk. all: intros os o [= <- <-]; finish.
  all: try reflexivity.
  all: eexists _, _; repeat split; reflexivity.
Qed.

(** *** One turn of the loop *)

Lemma cycle_inv env i os o :
  exec cycle_fuel env i cycle = (os, o) ->
  o = Returned tt
  /\ launches os <= 1
  /\ length (gotos os) <= 1
  /\ length (posted os) <= 1
  /\ Forall result_body (posted os)
  /\ timeouts os = [1000%Z]
  /\ last os = Some sleep
  /\ head (List.map call_of os) = Some (Call (Fetch get_jobs))
  /\ head (requests os) = Some get_jobs
  /\ length (List.filter (fun r => negb (is_post r)) (requests os)) = 1
  /\ (if caught os then posted os = [] else True)
  /\ match env _ (Fetch get_jobs) i with
     | inl err =>
         os = [Obs (Fetch get_jobs) (inl err);
               Obs (ConsoleError "Error polling jobs:" (message err)) tt;
               sleep]
     | inr _ => True
     end.
Proof.
  unfold cycle_fuel, Worker.cycle, Worker.processJob. revert os o.
  walk. all: intros os o [= <- <-]; finish.
  all: repeat split; try lia.
  all: repeat constructor.
  all: eexists _, _; reflexivity.
Qed.

Lemma cycle_returns env i : snd (exec cycle_fuel env i cycle) = Returned tt.
Proof.
  destruct (exec cycle_fuel env i cycle) as [os o] eqn:H.
  apply cycle_inv in H. destruct H as [H _]. exact H.
Qed.

Lemma cycle_exec env i :
  exec cycle_fuel env i cycle = (fst (exec cycle_fuel env i cycle), Returned tt).
Proof.
  pose proof (cycle_returns env i).
  destruct (exec cycle_fuel env i cycle); cbn in *; congruence.
Qed.

(** *** The loop *)

Lemma iterations_Forall (Q : list obs -> Prop) :
  (forall env i, Q (fst (exec cycle_fuel env i cycle))) ->
  forall n env i, Forall Q (iterations n env i).
Proof.
  intros HQ. induction n as [|n IH]; intros env i; cbn; constructor; auto.
Qed.

(** Every turn makes a call, so [n] turns make at least [n]. *)
Lemma iterations_calls n : forall env i, n <= length (concat (iterations n env i)).
Proof.
  induction n as [|n IH]; intros env i; [cbn; lia|].
  cbn [Worker.iterations concat]. rewrite length_app.
  destruct (cycle_inv env i _ _ (cycle_exec env i)) as (_ & _ & _ & _ & _ & Ht & _).
  specialize (IH env (i + length (fst (exec cycle_fuel env i cycle)))).
  destruct (fst (exec cycle_fuel env i cycle)); [discriminate|].
  cbn [length] in *. lia.
Qed.

(** [run] logs its start and then makes turn after turn. *)
Lemma run_iterations env n :
  exists fuel,
    exec fuel env 0 run = (started :: concat (iterations n env 1), Running).
Proof.
  destruct (exec_forever (T := unit) cycle cycle_fuel iterations
              cycle_returns (fun _ _ => eq_refl) (fun _ _ _ => eq_refl)
              n env 1) as [fuel Hf].
  exists (S fuel). unfold Worker.run. rewrite exec_S.
  cbn [observe _observe ITree.bind ITree.subst call ITree.trigger]. cbn zeta.
  destruct (env unit _ 0).
  erewrite exec_observe; [rewrite Hf; reflexivity|].
  reflexivity.
Qed.

(** Whenever it is stopped, [run] is in the middle of its turns. *)
Lemma run_running env fuel :
  exists n os,
    exec fuel env 0 run = (os, Running)
    /\ os `prefix_of` (started :: concat (iterations n env 1)).
Proof.
  destruct (run_iterations env fuel) as [fuel' H].
  exists fuel.
  pose proof (exec_length fuel' env 0 run) as Hl. rewrite H in Hl.
  pose proof (iterations_calls fuel env 1).
  cbn [fst length] in Hl.
  apply exec_running_prefix with (fuel := fuel) in H; [exact H | lia].
Qed.

Lemma Forall_prefix {A} (Q : A -> Prop) (l1 l2 : list A) :
  l1 `prefix_of` l2 -> Forall Q l2 -> Forall Q l1.
Proof. intros [k ->] H. apply Forall_app in H. apply H. Qed.

Lemma posted_prefix os1 os2 : os1 `prefix_of` os2 -> posted os1 `prefix_of` posted os2.
Proof. intros [k ->]. rewrite posted_app. eexists; reflexivity. Qed.

(** Every body the worker ever posts is a [result_body]. *)
Lemma run_posted env fuel : Forall result_body (posted (fst (exec fuel env 0 run))).
Proof.
  destruct (run_running env fuel) as (n & os & -> & Hpre).
  cbn [fst]. apply posted_prefix in Hpre.
  eapply Forall_prefix; [exact Hpre|].
  change (started :: concat (iterations n env 1))
    with ([started] ++ concat (iterations n env 1)).
  rewrite posted_app, posted_concat. cbn [posted started app].
  apply Forall_concat, Forall_map.
  apply iterations_Forall. intros env' i.
  destruct (cycle_inv env' i _ _ (cycle_exec env' i)) as (_ & _ & _ & _ & H & _).
  exact H.
Qed.

Lemma result_body_fields body :
  result_body body ->
  get_prop body "status" = inr (JStr "success")
  /\ has_key "bytes" body = true
  /\ has_key "html" body = true
  /\ has_key "id" body = false
  /\ has_key "payload" body = false
  /\ spec_result_shape body = false.
Proof.
  intros (url & html & ->).
  destruct url; cbn; repeat split; reflexivity.
Qed.

(** An iteration that posts: the poll, the page of the first job read
    from it, and the POST of what that page gave. *)
Lemma cycle_post_shape env i :
  posted (fst (exec cycle_fuel env i cycle)) = []
  \/ exists response data jobs b p url html x,
       get_prop data "jobs" = inr jobs
       /\ get_prop (js_index0 (js_or jobs (JArr []))) "url" = inr url
       /\ fst (exec cycle_fuel env i cycle)
          = [Obs (Fetch get_jobs) (inr response);
             Obs (ResponseJson response) (inr data);
             Obs (ChromiumLaunch true) (inr b);
             Obs (BrowserNewPage b) (inr p);
             Obs (PageGoto p url "networkidle") (inr tt);
             Obs (PageContent p) (inr html);
             Obs (BrowserClose b) (inr tt);
             Obs (Fetch (post_result (result_of url html))) x]
            ++ match x with
               | inl err => [Obs (ConsoleError "Failed to post result:" (message err)) tt]
               | inr _ => []
               end
            ++ [Obs (ConsoleLog (LJson (stringify_obj (result_of url html)))) tt; sleep].
Proof.
  destruct (exec cycle_fuel env i cycle) as [os o] eqn:H. cbn [fst].
  revert os o H.
  unfold cycle_fuel, Worker.cycle, Worker.processJob.
  walk. all: intros os o [= <- <-].
  all: repeat match goal with u : unit |- _ => destruct u end.
  all: first
         [ left; reflexivity
         | right;
           match goal with
           | Hj : _ _ (ResponseJson ?response) _ = inr ?data,
             Hjobs : get_prop ?data "jobs" = inr ?jobs,
             Hb : _ _ (ChromiumLaunch true) _ = inr ?b,
             Hp : _ _ (BrowserNewPage _) _ = inr ?p,
             Hu : get_prop (js_index0 _) "url" = inr ?url,
             Hc : _ _ (PageContent _) _ = inr ?html,
             Hx : _ _ (Fetch (mkRequest _ "POST" _ _)) _ = ?x |- _ =>
               exists response, data, jobs, b, p, url, html, x
           end;
           split; [assumption|]; split; [assumption|]; reflexivity ].
Qed.

(** C1, amended: every Result the worker submits via POST /results is the
    serialised object [{ url, bytes, status, html }] with status
    ['success']; it has no [id] and no [payload] property, and nothing
    in it identifies the worker.  Its [url] is the [url] property of
    the first job of the list polled in that iteration, which is the
    address the page was sent to; its [html] is what [page.content()]
    answered for that page, and [bytes] is the length of that.  [run] is
    these iterations one after another. *)
Theorem posted_result_is_url_bytes_status_html (env : oracle) :
  (forall fuel,
      Forall (fun body =>
                (exists url html, body = stringify_obj (result_of url html))
                /\ get_prop body "status" = inr (JStr "success")
                /\ has_key "bytes" body = true
                /\ has_key "html" body = true
                /\ has_key "id" body = false
                /\ has_key "payload" body = false)
        (posted (fst (exec fuel env 0 run))))
  /\ (forall n, exists fuel,
         exec fuel env 0 run = (started :: concat (iterations n env 1), Running))
  /\ (forall n,
         Forall (fun os =>
                   posted os = []
                   \/ exists response data jobs b p url html x,
                        get_prop data "jobs" = inr jobs
                        /\ get_prop (js_index0 (js_or jobs (JArr []))) "url" = inr url
                        /\ os = [Obs (Fetch get_jobs) (inr response);
                                 Obs (ResponseJson response) (inr data);
                                 Obs (ChromiumLaunch true) (inr b);
                                 Obs (BrowserNewPage b) (inr p);
                                 Obs (PageGoto p url "networkidle") (inr tt);
                                 Obs (PageContent p) (inr html);
                                 Obs (BrowserClose b) (inr tt);
                                 Obs (Fetch (post_result (result_of url html))) x]
                                ++ match x with
                                   | inl err =>
                                       [Obs (ConsoleError "Failed to post result:"
                                               (message err)) tt]
                                   | inr _ => []
                                   end
                                ++ [Obs (ConsoleLog
                                           (LJson (stringify_obj (result_of url html)))) tt;
                                    sleep]
                        /\ posted os = [stringify_obj (result_of url html)])
           (iterations n env 1)).
Proof.
  split; [|split].
  - intros fuel. eapply Forall_impl; [apply run_posted|].
    intros body Hb. split; [exact Hb|].
    destruct (result_body_fields body Hb) as (? & ? & ? & ? & ? & _). auto.
  - intros n. apply run_iterations.
  - intros n. apply iterations_Forall. intros env' i.
    destruct (cycle_post_shape env' i)
      as [H|(response & data & jobs & b & p & url & html & x & Hj & Hu & H)];
      [left; exact H|].
    right. exists response, data, jobs, b, p, url, html, x.
    split; [exact Hj|]. split; [exact Hu|]. split; [exact H|].
    rewrite H. destruct x; reflexivity.
Qed.

(** C5: in every iteration of the polling loop at most one job is
    processed (one browser launched, one page loaded), and the iteration
    ends with the one timer it sets, of 1000 ms, whatever the /jobs
    response contained; the next iteration starts with the next poll;
    [run] is these iterations one after another. *)
Theorem one_job_per_iteration_then_one_second (env : oracle) (n : nat) :
  (exists fuel,
      exec fuel env 0 run = (started :: concat (iterations n env 1), Running))
  /\ Forall (fun os =>
               launches os <= 1
               /\ length (gotos os) <= 1
               /\ timeouts os = [1000%Z]
               /\ last os = Some sleep
               /\ head (List.map call_of os) = Some (Call (Fetch get_jobs)))
       (iterations n env 1).
Proof.
  split; [apply run_iterations|].
  apply iterations_Forall. intros env' i.
  destruct (cycle_inv env' i _ _ (cycle_exec env' i))
    as (_ & ? & ? & _ & _ & ? & ? & ? & _). auto.
Qed.

(** C4, amended: a network failure while fetching /jobs or posting to
    /results is never fatal: whatever the environment answers, [run]
    never ends with an uncaught error and makes iteration after
    iteration; every iteration polls once, posts at most once and ends
    with the same 1000 ms timer, failed or not; a rejected poll is
    logged under ["Error polling jobs:"] and followed by that timer.
    A POST is the last request of its iteration: if it is rejected,
    the rejection is logged under ["Failed to post result:"] and the
    iteration goes on to log the result and set the timer, sending
    nothing again.  And a POST always carries a page loaded earlier in
    its own iteration, after that iteration's poll: no iteration sends
    what an earlier one failed to send. *)
Theorem fetch_failure_is_caught_and_delay_is_fixed (env : oracle) :
  (forall fuel, snd (exec fuel env 0 run) = Running)
  /\ (forall n, exists fuel,
         exec fuel env 0 run = (started :: concat (iterations n env 1), Running))
  /\ (forall n,
         Forall (fun os =>
                   head (requests os) = Some get_jobs
                   /\ length (List.filter (fun r => negb (is_post r)) (requests os)) = 1
                   /\ length (posted os) <= 1
                   /\ timeouts os = [1000%Z]
                   /\ last os = Some sleep)
           (iterations n env 1))
  /\ (forall i,
         match env _ (Fetch get_jobs) i with
         | inl err =>
             fst (exec cycle_fuel env i cycle)
             = [Obs (Fetch get_jobs) (inl err);
                Obs (ConsoleError "Error polling jobs:" (message err)) tt;
                sleep]
         | inr _ => True
         end)
  /\ (forall n,
         Forall (fun os =>
                   posted os = []
                   \/ exists pre p url html x,
                        requests pre = [get_jobs]
                        /\ In (Obs (PageGoto p url "networkidle") (inr tt)) pre
                        /\ In (Obs (PageContent p) (inr html)) pre
                        /\ os = pre
                                ++ Obs (Fetch (post_result (result_of url html))) x
                                :: match x with
                                   | inl err =>
                                       [Obs (ConsoleError "Failed to post result:"
                                               (message err)) tt]
                                   | inr _ => []
                                   end
                                ++ [Obs (ConsoleLog
                                           (LJson (stringify_obj (result_of url html)))) tt;
                                    sleep])
           (iterations n env 1)).
Proof.
  split; [|split; [|split; [|split]]].
  - intros fuel. destruct (run_running env fuel) as (n & os & -> & _). reflexivity.
  - intros n. apply run_iterations.
  - intros n. apply iterations_Forall. intros env' i.
    destruct (cycle_inv env' i _ _ (cycle_exec env' i))
      as (_ & _ & _ & ? & _ & ? & ? & _ & ? & ? & _). auto.
  - intros i.
    destruct (cycle_inv env i _ _ (cycle_exec env i))
      as (_ & _ & _ & _ & _ & _ & _ & _ & _ & _ & _ & H).
    exact H.
  - intros n. apply iterations_Forall. intros env' i.
    destruct (cycle_post_shape env' i)
      as [H|(response & data & jobs & b & p & url & html & x & _ & _ & H)];
      [left; exact H|].
    right.
    exists [Obs (Fetch get_jobs) (inr response);
            Obs (ResponseJson response) (inr data);
            Obs (ChromiumLaunch true) (inr b);
            Obs (BrowserNewPage b) (inr p);
            Obs (PageGoto p url "networkidle") (inr tt);
            Obs (PageContent p) (inr html);
            Obs (BrowserClose b) (inr tt)], p, url, html, x.
    split; [reflexivity|].
    split; [cbn; auto 10|]. split; [cbn; auto 10|].
    rewrite H. reflexivity.
Qed.

(** C8: every result the worker submits has status ['success'], never
    ['failure']; a call of [processJob] that throws has posted nothing,
    one that returns has posted exactly one result; and an iteration in
    which the catch clause of [run] ran has posted nothing. *)
Theorem only_success_results_are_submitted (env : oracle) :
  (forall fuel,
      Forall (fun body =>
                get_prop body "status" = inr (JStr "success")
                /\ get_prop body "status" <> inr (JStr "failure"))
        (posted (fst (exec fuel env 0 run))))
  /\ (forall job i,
         match snd (exec cycle_fuel env i (processJob job)) with
         | Uncaught _ => posted (fst (exec cycle_fuel env i (processJob job))) = []
         | Returned _ =>
             exists url html,
               posted (fst (exec cycle_fuel env i (processJob job)))
               = [stringify_obj (result_of url html)]
         | Running => False
         end)
  /\ (forall i,
         if caught (fst (exec cycle_fuel env i cycle))
         then posted (fst (exec cycle_fuel env i cycle)) = []
         else True).
Proof.
  repeat split.
  - intros fuel. eapply Forall_impl; [apply run_posted|].
    intros body Hb. destruct (result_body_fields body Hb) as (Hs & _).
    split; [exact Hs | rewrite Hs; discriminate].
  - intros job i.
    destruct (exec cycle_fuel env i (processJob job)) as [os o] eqn:H.
    apply processJob_inv in H. cbn [fst snd].
    destruct o; [|exact H|exact H].
    destruct H as (url & html & _ & _ & _ & H). eauto.
  - intros i.
    destruct (cycle_inv env i _ _ (cycle_exec env i))
      as (_ & _ & _ & _ & _ & _ & _ & _ & _ & _ & H & _).
    exact H.
Qed.

(** With a list of one job or more in hand, the iteration goes on with
    [processJob] on the first. *)
Lemma cycle_first_job (env : oracle) i response data job rest :
  env _ (Fetch get_jobs) i = inr response ->
  env _ (ResponseJson response) (S i) = inr data ->
  get_prop data "jobs" = inr (JArr (job :: rest)) ->
  fst (exec cycle_fuel env i cycle)
  = Obs (Fetch get_jobs) (inr response)
      :: Obs (ResponseJson response) (inr data)
      :: fst (exec cycle_fuel env (S (S i)) (guarded (processJob job)))
      ++ [sleep].
Proof.
  intros H1 H2 H3.
  assert (Hgt : js_gt0 coerce (js_length (js_or (JArr (job :: rest)) (JArr []))) = true).
  { cbn -[Z.of_nat]. apply Z.ltb_lt. lia. }
  assert (Hidx : js_index0 (js_or (JArr (job :: rest)) (JArr [])) = job) by reflexivity.
  unfold cycle_fuel, Worker.cycle, Worker.guarded, Worker.processJob.
  unfold Worker.get_jobs in *.
  walk. all: reflexivity.
Qed.

Lemma requests_app os1 os2 : requests (os1 ++ os2) = requests os1 ++ requests os2.
Proof.
  induction os1 as [|[X e x] os1 IH]; [reflexivity|].
  destruct e; cbn; congruence.
Qed.

(** *** The response to a POST *)

Lemma cycle_post_response response env i :
  List.map call_of (fst (exec cycle_fuel (with_post_responses response env) i cycle))
  = List.map call_of (fst (exec cycle_fuel env i cycle)).
Proof.
  unfold cycle_fuel, Worker.cycle, Worker.processJob.
  walk. all: reflexivity.
Qed.

Lemma iterations_post_response response n :
  forall env i,
    List.map (List.map call_of) (iterations n (with_post_responses response env) i)
    = List.map (List.map call_of) (iterations n env i).
Proof.
  induction n as [|n IH]; intros env i; [reflexivity|].
  cbn [Worker.iterations List.map].
  pose proof (cycle_post_response response env i) as Hc.
  rewrite Hc. f_equal.
  apply (f_equal (@length _)) in Hc. rewrite !length_map in Hc.
  rewrite Hc. apply IH.
Qed.

Lemma iterations_ext (env1 env2 : oracle) :
  (forall X e i, env1 X e i = env2 X e i) ->
  forall n i, iterations n env1 i = iterations n env2 i.
Proof.
  intros Hext. induction n as [|n IH]; intros i; [reflexivity|].
  cbn [Worker.iterations].
  rewrite (exec_ext env1 env2 Hext), IH. reflexivity.
Qed.

Lemma same_but_post_response_inv env1 env2 :
  same_but_post_response env1 env2 ->
  exists response,
    forall X e i, env2 X e i = with_post_responses response env1 X e i.
Proof.
  intros H.
  exists (fun req i =>
            match env2 _ (Fetch req) i with
            | inr r => r
            | inl _ => mkResponse 0 0
            end).
  intros X e i. specialize (H X e i). unfold with_post_responses.
  destruct e; try (destruct H as [H|[]]; congruence).
  destruct H as [H | (Hp & [r1 H1] & [r2 H2])].
  - rewrite <- H.
    destruct (is_post req), (env1 _ (Fetch req) i); reflexivity.
  - rewrite Hp, H1, H2. reflexivity.
Qed.

(** C10: the worker never looks at the response to its POST.  Take two
    environments that answer alike, except that where one answers a
    POST with a response (200, 409, 400, ...) the other answers it with a
    response too, be it another one.  Then over any number of
    iterations the worker makes the same calls in the same order: no
    retry, no error, the same next poll. *)
Theorem post_response_is_ignored (env1 env2 : oracle) (n : nat) :
  same_but_post_response env1 env2 ->
  List.map call_of (concat (iterations n env1 1))
  = List.map call_of (concat (iterations n env2 1)).
Proof.
  intros H. destruct (same_but_post_response_inv env1 env2 H) as [response Hr].
  rewrite (iterations_ext env2 _ Hr).
  rewrite !concat_map. f_equal. symmetry.
  apply iterations_post_response.
Qed.

End Worker.

(** *** Concrete runs *)

(** A job processed against a healthy orchestrator. *)
Example processJob_healthy :
  exec cycle_fuel (env_serving 200) 0 (processJob None job_a)
  = ([Obs (ChromiumLaunch true) (inr 1);
      Obs (BrowserNewPage 1) (inr 2);
      Obs (PageGoto 2 (JStr "http://a.example/") "networkidle") (inr tt);
      Obs (PageContent 2) (inr "<html></html>");
      Obs (BrowserClose 1) (inr tt);
      Obs (Fetch (post_result None (result_of (JStr "http://a.example/") "<html></html>")))
        (inr (mkResponse 200 5));
      Obs (ConsoleLog
             (LJson (stringify_obj (result_of (JStr "http://a.example/") "<html></html>"))))
        tt],
     Returned tt).
Proof. vm_compute. reflexivity. Qed.

(** Navigation fails: [processJob] throws, the browser stays open, nothing
    is posted. *)
Example processJob_navigation_fails :
  exec cycle_fuel env_goto_fails 0 (processJob None job_a)
  = ([Obs (ChromiumLaunch true) (inr 1);
      Obs (BrowserNewPage 1) (inr 2);
      Obs (PageGoto 2 (JStr "http://a.example/") "networkidle")
        (inl (mkError "net::ERR_NAME_NOT_RESOLVED"))],
     Uncaught (mkError "net::ERR_NAME_NOT_RESOLVED")).
Proof. vm_compute. reflexivity. Qed.

(** A job that is [null]: the read of [job.url] throws after the browser
    has been launched. *)
Example processJob_null_job :
  exec cycle_fuel (env_serving 200) 0 (processJob None JNull)
  = ([Obs (ChromiumLaunch true) (inr 1); Obs (BrowserNewPage 1) (inr 2)],
     Uncaught (mkError "Cannot read properties of null (reading 'url')")).
Proof. vm_compute. reflexivity. Qed.

(** The orchestrator is down: the poll is rejected, logged, and followed
    by the timer. *)
Example iteration_orchestrator_down :
  iterations None (fun _ => false) 1 env_down 1
  = [[Obs (Fetch (get_jobs None)) (inl (mkError "fetch failed"));
      Obs (ConsoleError "Error polling jobs:" "fetch failed") tt;
      sleep]].
Proof. vm_compute. reflexivity. Qed.

(** With POST rejected and nothing more to poll, an iteration from the
    second on is a poll and the timer. *)
Lemma idle_iteration i :
  exec cycle_fuel env_post_down (S (S i)) (cycle None (fun _ => false))
  = ([Obs (Fetch (get_jobs None)) (inr (mkResponse 200 (S (S i))));
      Obs (ResponseJson (mkResponse 200 (S (S i)))) (inr (JObj [("jobs", JArr [])]));
      sleep],
     Returned tt).
Proof.
  unfold cycle_fuel, cycle, processJob.
  repeat (rewrite exec_S; lazy -[exec]).
  reflexivity.
Qed.

Lemma idle_iterations n :
  forall i, requests (concat (iterations None (fun _ => false) n env_post_down (S (S i))))
            = repeat (get_jobs None) n.
Proof.
  induction n as [|n IH]; intros i; [reflexivity|].
  cbn [iterations concat]. rewrite idle_iteration. cbn [fst length].
  rewrite requests_app.
  replace (S (S i) + 3) with (S (S (i + 3))) by lia.
  rewrite IH. reflexivity.
Qed.

(** *** The claims as first stated, on concrete runs *)

(** C1 as stated fails: with a healthy orchestrator handing out the job
    [{ id: "a", url: "http://a.example/" }], the one body the worker
    posts has the properties [url], [bytes], [status], [html]: not the
    shape [{ id, url, status, payload }], and no worker identity. *)
Lemma posted_result_lacks_id_and_payload :
  posted (concat (iterations None (fun _ => false) 1 (env_serving 200) 1))
  = [JObj [("url", JStr "http://a.example/"); ("bytes", JNum 13);
           ("status", JStr "success"); ("html", JStr "<html></html>")]]
  /\ ~ Forall (fun body => spec_result_shape body = true)
         (posted (concat (iterations None (fun _ => false) 1 (env_serving 200) 1))).
Proof.
  assert (E : posted (concat (iterations None (fun _ => false) 1 (env_serving 200) 1))
              = [JObj [("url", JStr "http://a.example/"); ("bytes", JNum 13);
                       ("status", JStr "success"); ("html", JStr "<html></html>")]])
    by (vm_compute; reflexivity).
  split; [exact E|].
  rewrite E. intros H. inversion H as [|? ? Hs _]. vm_compute in Hs. discriminate.
Qed.

(** C4 as stated fails.  With POST rejected, the worker's requests over
    three iterations are the poll, the POST that fails, and two more
    polls; and however many iterations follow, the result of the first
    one is not sent again: the failed operation is not retried. *)
Lemma failed_post_is_not_retried :
  requests (concat (iterations None (fun _ => false) 3 env_post_down 1))
  = [get_jobs None;
     post_result None (result_of (JStr "http://a.example/") "<html></html>");
     get_jobs None;
     get_jobs None]
  /\ (forall n,
         ~ spec_retried
             (concat (iterations None (fun _ => false) (S n) env_post_down 1))).
Proof.
  split; [vm_compute; reflexivity|].
  intros n H.
  set (first := fst (exec cycle_fuel env_post_down 1 (cycle None (fun _ => false)))).
  assert (Hlen : length first = 11) by (vm_compute; reflexivity).
  specialize (H (firstn 7 first)
                (post_result None (result_of (JStr "http://a.example/") "<html></html>"))
                (mkError "fetch failed")
                (skipn 8 first
                   ++ concat (iterations None (fun _ => false) n env_post_down 12))).
  assert (Hin : In (post_result None (result_of (JStr "http://a.example/") "<html></html>"))
                  (repeat (get_jobs None) n)).
  { rewrite <- (idle_iterations n 10).
    assert (E : requests (skipn 8 first) = []) by (vm_compute; reflexivity).
    change (requests (concat (iterations None (fun _ => false) n env_post_down 12)))
      with ([] ++ requests (concat (iterations None (fun _ => false) n env_post_down 12))).
    rewrite <- E, <- requests_app.
    apply H.
    cbn [iterations concat]. fold first. rewrite Hlen.
    change (1 + 11) with 12.
    rewrite <- (firstn_skipn 7 first) at 1. rewrite <- app_assoc.
    apply (f_equal (app (firstn 7 first))).
    rewrite app_comm_cons.
    apply (f_equal (fun l => l ++ concat (iterations None (fun _ => false) n
                                            env_post_down 12))).
    vm_compute. reflexivity. }
  apply repeat_spec in Hin. apply (f_equal req_method) in Hin. discriminate.
Qed.

(** C10 at work: an orchestrator that accepts every result (200) against
    one that rejects every result (409). *)
Lemma post_response_is_ignored_witness :
  same_but_post_response (env_serving 200) (env_serving 409)
  /\ List.map call_of (concat (iterations None (fun _ => false) 2 (env_serving 200) 1))
     = List.map call_of (concat (iterations None (fun _ => false) 2 (env_serving 409) 1)).
Proof.
  assert (H : same_but_post_response (env_serving 200) (env_serving 409)).
  { intros X e i. destruct e; try (left; reflexivity).
    destruct (is_post req) eqn:Hp.
    - right. split; [first [exact Hp | reflexivity]|]. split; eexists; reflexivity.
    - left. cbn. rewrite ?Hp. reflexivity. }
  split; [exact H|].
  apply (post_response_is_ignored None (fun _ => false) (env_serving 200) (env_serving 409) 2 H).
Defined.

End WorkerProofs.

(** ** launch_crawler_team.js *)

Module LauncherProofs.
Import Launcher.
Local Open Scope list_scope.

Lemma startup_state :
  fst startup = mkState ["worker-1"; "worker-2"; "worker-3"] None.
Proof. reflexivity. Qed.

Lemma startup_spawns :
  List.filter is_spawn (snd startup)
  = [Spawn "node" ["worker.js"; "worker-1"] "inherit";
     Spawn "node" ["worker.js"; "worker-2"] "inherit";
     Spawn "node" ["worker.js"; "worker-3"] "inherit"].
Proof. reflexivity. Qed.

(** No handler spawns a process. *)
Lemma react_no_spawn st input : List.filter is_spawn (snd (react st input)) = [].
Proof.
  unfold react. destruct (exited st); [reflexivity|].
  destruct input as [child code|child err|s]; cbn.
  - destruct (nth_error (workers st) child); reflexivity.
  - destruct (nth_error (workers st) child); reflexivity.
  - unfold kill_all. induction (seq 0 (length (workers st))); cbn; auto.
Qed.

Lemma react_all_no_spawn inputs :
  forall st, List.filter is_spawn (snd (react_all st inputs)) = [].
Proof.
  induction inputs as [|input inputs IH]; intros st; [reflexivity|].
  cbn [react_all].
  pose proof (react_no_spawn st input) as H1.
  destruct (react st input) as [st1 effs1]. specialize (IH st1).
  destruct (react_all st1 inputs) as [st2 effs2]. cbn [snd] in *.
  rewrite List.filter_app, H1, IH. reflexivity.
Qed.

Lemma launch_spawns inputs :
  List.filter is_spawn (snd (launch inputs)) = List.filter is_spawn (snd startup).
Proof.
  unfold launch. destruct startup as [st0 effs0].
  pose proof (react_all_no_spawn inputs st0) as H.
  destruct (react_all st0 inputs) as [st effs]. cbn [snd] in *.
  rewrite List.filter_app, H, app_nil_r. reflexivity.
Qed.

(** Once the launcher has exited, nothing happens any more. *)
Lemma react_all_exited inputs :
  forall st code, exited st = Some code -> react_all st inputs = (st, []).
Proof.
  induction inputs as [|input inputs IH]; intros st code H; [reflexivity|].
  cbn [react_all]. unfold react. rewrite H. rewrite (IH st code H). reflexivity.
Qed.

(** C3, amended: when a worker process exits, the launcher logs
    ["<workerId> exited with code <code>"] and does nothing else: its
    state is unchanged and no process is spawned.  Whatever happens, the
    only processes the launcher ever spawns are the three of its
    startup. *)
Theorem worker_exit_is_only_logged (st : State) (child : nat) (code : option Z) :
  react st (ChildClose child code)
  = (st,
     match exited st, nth_error (workers st) child with
     | None, Some id => [ConsoleLog (id ++ " exited with code " ++ code_to_string code)]
     | _, _ => []
     end)
  /\ forall inputs,
       List.filter is_spawn (snd (launch inputs))
       = [Spawn "node" ["worker.js"; "worker-1"] "inherit";
          Spawn "node" ["worker.js"; "worker-2"] "inherit";
          Spawn "node" ["worker.js"; "worker-3"] "inherit"].
Proof.
  split.
  - unfold react. destruct (exited st); [reflexivity|].
    destruct (nth_error (workers st) child); reflexivity.
  - intros inputs. rewrite launch_spawns. apply startup_spawns.
Qed.

(** C3 as stated fails: worker-1 exits with code 1, then again worker-2
    and worker-3 exit; the launcher has spawned the three processes of its
    startup and none since. *)
Lemma exited_worker_is_not_respawned :
  ~ spec_respawn [ChildClose 0 (Some 1%Z); ChildClose 1 (Some 1%Z); ChildClose 2 None]
  /\ snd (react (fst startup) (ChildClose 0 (Some 1%Z)))
     = [ConsoleLog "worker-1 exited with code 1"].
Proof.
  split; [|reflexivity].
  unfold spec_respawn, NUM_WORKERS. rewrite launch_spawns, startup_spawns.
  cbn [length]. lia.
Qed.

(** C2, amended: on SIGINT or SIGTERM the launcher, unless it has exited
    already, logs the shutdown, sends that same signal once to every
    worker process it spawned, in spawn order, and calls [process.exit(0)]
    in the same handler run: it waits for no worker, sends no other
    signal, and its exit status is 0 whatever the workers do; after that
    no handler runs. *)
Theorem shutdown_forwards_signal_and_exits_zero
    (st : State) (s : Signal) (later : list Input) :
  exited st = None ->
  react_all st (Sig s :: later)
  = (mkState (workers st) (Some 0%Z),
     ConsoleLog (String (Ascii.ascii_of_nat 10) "Shutting down crawler team...")
       :: List.map (fun child => Kill child (signal_name s)) (seq 0 (length (workers st)))
       ++ [Exit 0]).
Proof.
  intros H. cbn [react_all]. unfold react at 1. rewrite H.
  rewrite (react_all_exited later (mkState (workers st) (Some 0%Z)) 0%Z eq_refl).
  rewrite app_nil_r. reflexivity.
Qed.

(** C2 at work: the launcher right after its startup, with a worker
    exiting after the signal. *)
Lemma shutdown_forwards_signal_and_exits_zero_witness :
  exited (fst startup) = None
  /\ react_all (fst startup) [Sig SIGTERM; ChildClose 0 None]
     = (mkState ["worker-1"; "worker-2"; "worker-3"] (Some 0%Z),
        [ConsoleLog (String (Ascii.ascii_of_nat 10) "Shutting down crawler team...");
         Kill 0 "SIGTERM"; Kill 1 "SIGTERM"; Kill 2 "SIGTERM"; Exit 0]).
Proof.
  split; [reflexivity|].
  apply (shutdown_forwards_signal_and_exits_zero (fst startup) SIGTERM
           [ChildClose 0 None] eq_refl).
Defined.

(** C2 as stated fails: on SIGINT with three workers running, the launcher
    exits with status 0 having seen no worker stop and having sent no
    SIGKILL. *)
Lemma shutdown_does_not_wait_or_force :
  ~ spec_shutdown [Sig SIGINT]
  /\ launch [Sig SIGINT]
     = (mkState ["worker-1"; "worker-2"; "worker-3"] (Some 0%Z),
        snd startup
          ++ [ConsoleLog (String (Ascii.ascii_of_nat 10) "Shutting down crawler team...");
              Kill 0 "SIGINT"; Kill 1 "SIGINT"; Kill 2 "SIGINT"; Exit 0]).
Proof.
  split; [|reflexivity].
  unfold spec_shutdown.
  change (launch [Sig SIGINT])
    with (mkState ["worker-1"; "worker-2"; "worker-3"] (Some 0%Z),
          snd startup
            ++ [ConsoleLog (String (Ascii.ascii_of_nat 10) "Shutting down crawler team...");
                Kill 0 "SIGINT"; Kill 1 "SIGINT"; Kill 2 "SIGINT"; Exit 0]).
  intros H. destruct (H 0) as [Hc|Hk]; [cbn; lia | |]; vm_compute in Hc || vm_compute in Hk;
    discriminate.
Qed.

End LauncherProofs.

(** ** The job queue and the manifest *)

Module DispatchProofs.
Import Dispatch.
#[local] Set Warnings "-clear-no-such-hyp".
Local Open Scope list_scope.
Local Open Scope nat_scope.

Lemma queue_ids_enqueue job q q' :
  enqueue job q = Some q' ->
  (queue_ids q' ≡ₚ job_id job :: queue_ids q)
  ∧ completed q' = completed q
  ∧ (job_id job ∉ queue_ids q) ∧ (job_id job ∉ completed q).
Proof.
  unfold enqueue. case_decide as Hk; [discriminate|]. intros [= <-].
  unfold queue_ids; cbn. rewrite fmap_app. cbn.
  split; [|tauto].
  solve_Permutation.
Qed.

Lemma queue_ids_lease pol count now q :
  queue_ids (snd (lease pol count now q)) ≡ₚ queue_ids q.
Proof.
  unfold lease, queue_ids; cbn.
  rewrite fmap_app, <- list_fmap_compose.
  change (lease_id ∘ (λ e, mkLease e (now + lease_window pol))) with entry_id.
  rewrite <- (take_drop count (pending q)) at 3. rewrite fmap_app.
  solve_Permutation.
Qed.

Lemma queue_ids_reclaim pol now q :
  queue_ids (reclaim pol now q) ≡ₚ queue_ids q.
Proof.
  unfold reclaim, queue_ids; cbn.
  set (back := requeued ∘ lease_entry <$> filter (expired now) (leased q)).
  assert (Hback : entry_id <$> back = lease_id <$> filter (expired now) (leased q)).
  { subst back. rewrite <- list_fmap_compose. reflexivity. }
  assert (Hsplit : (entry_id <$> filter (within_limit pol) back)
                     ++ (entry_id <$> filter (λ e, ¬ within_limit pol e) back)
                   ≡ₚ lease_id <$> filter (expired now) (leased q)).
  { rewrite <- fmap_app, filter_app_complement, Hback. reflexivity. }
  transitivity ((entry_id <$> pending q)
                  ++ ((lease_id <$> filter (expired now) (leased q))
                        ++ (lease_id <$> filter (λ l, ¬ expired now l) (leased q)))
                  ++ (entry_id <$> dead q)).
  - rewrite <- Hsplit, !fmap_app. solve_Permutation.
  - rewrite <- fmap_app, filter_app_complement. reflexivity.
Qed.

Lemma consistent_empty : consistent empty.
Proof.
  split; cbn.
  - constructor.
  - intros id H. inversion H.
  - intros id. set_solver.
  - constructor.
  - intros id loc H. inversion H.
Qed.


Lemma consistent_enqueue job s q' :
  consistent s -> enqueue job (queue s) = Some q' ->
  consistent (mkServer q' (sink s) (manifest s)).
Proof.
  intros [Hnd Hnc Hmc Hmn Hms] He.
  apply queue_ids_enqueue in He as (Hp & Hc & Hq & Hcompl).
  split; cbn.
  - rewrite Hp. apply NoDup_cons. split; assumption.
  - intros id. rewrite Hp, Hc. intros [->|Hin]%elem_of_cons; auto.
  - intros id. rewrite Hc. apply Hmc.
  - exact Hmn.
  - exact Hms.
Qed.

Lemma consistent_lease pol count now s :
  consistent s ->
  consistent (mkServer (snd (lease pol count now (queue s))) (sink s) (manifest s)).
Proof.
  intros [Hnd Hnc Hmc Hmn Hms].
  pose proof (queue_ids_lease pol count now (queue s)) as Hp.
  split; cbn [queue sink manifest].
  - rewrite Hp. exact Hnd.
  - intros id. rewrite Hp. apply Hnc.
  - exact Hmc.
  - exact Hmn.
  - exact Hms.
Qed.

Lemma consistent_reclaim pol now s :
  consistent s ->
  consistent (mkServer (reclaim pol now (queue s)) (sink s) (manifest s)).
Proof.
  intros [Hnd Hnc Hmc Hmn Hms].
  pose proof (queue_ids_reclaim pol now (queue s)) as Hp.
  split; cbn [queue sink manifest].
  - rewrite Hp. exact Hnd.
  - intros id. rewrite Hp. apply Hnc.
  - exact Hmc.
  - exact Hmn.
  - exact Hms.
Qed.

(** Completing a leased job takes its identifier out of the queue. *)
Lemma queue_ids_complete id q :
  NoDup (queue_ids q) -> id ∈ lease_id <$> leased q ->
  NoDup (queue_ids (complete id q))
  ∧ (∀ id', id' ∈ queue_ids (complete id q) ↔ id' ∈ queue_ids q ∧ id' ≠ id)
  ∧ completed (complete id q) = {[ id ]} ∪ completed q.
Proof.
  intros Hnd Hin. unfold complete. rewrite decide_True by exact Hin.
  unfold queue_ids in *; cbn.
  apply NoDup_app in Hnd as (HP & HPx & Hnd).
  apply NoDup_app in Hnd as (HL & HLx & HD).
  assert (Hf : ∀ id', id' ∈ lease_id <$> filter (λ l, lease_id l ≠ id) (leased q)
                      ↔ id' ∈ lease_id <$> leased q ∧ id' ≠ id).
  { intros id'. rewrite !list_elem_of_fmap. split.
    - intros (l & -> & [Hne Hl]%list_elem_of_filter). eauto.
    - intros [(l & -> & Hl) Hne]. exists l. split; [reflexivity|].
      apply list_elem_of_filter. auto. }
  split; [|split; [|reflexivity]].
  - apply NoDup_app. split; [exact HP|]. split.
    + intros x Hx Hx'. apply (HPx x Hx).
      apply elem_of_app in Hx' as [Hx'|Hx']; apply elem_of_app; [left|right; exact Hx'].
      apply Hf in Hx'. tauto.
    + apply NoDup_app. split; [|split; [|exact HD]].
      * apply NoDup_fmap_2_strong; [|apply NoDup_filter, (NoDup_fmap_1 lease_id), HL].
        intros l1 l2 [_ H1]%list_elem_of_filter [_ H2]%list_elem_of_filter Heq.
        revert l1 l2 H1 H2 Heq. clear -HL.
        induction (leased q) as [|l ls IH]; intros l1 l2 H1 H2 Heq; [inversion H1|].
        cbn in HL. apply NoDup_cons in HL as [Hl HL].
        apply elem_of_cons in H1 as [->|H1], H2 as [->|H2]; auto.
        -- exfalso. apply Hl. rewrite Heq. apply list_elem_of_fmap_2, H2.
        -- exfalso. apply Hl. rewrite <- Heq. apply list_elem_of_fmap_2, H1.
      * intros x Hx. apply HLx. apply Hf in Hx. tauto.
  - intros id'. rewrite !elem_of_app, Hf. split.
    + intros [Hx|[[Hx Hne]|Hx]]; (split; [tauto|]); [|exact Hne|]; intros ->.
      * apply (HPx id Hx). apply elem_of_app. tauto.
      * apply (HLx id Hin Hx).
    + tauto.
Qed.

Lemma consistent_submit r s :
  consistent s -> consistent (snd (submitResult r s)).
Proof.
  intros Hs. unfold submitResult.
  destruct (result_id r) as [id|] eqn:Hid; [|exact Hs].
  case_decide as Hm; [exact Hs|].
  case_decide as Hl; [|exact Hs].
  destruct Hs as [Hnd Hnc Hmc Hmn Hms].
  destruct (queue_ids_complete id (queue s) Hnd Hl) as (Hnd' & Hin' & Hc').
  split; cbn [snd queue sink manifest].
  - exact Hnd'.
  - intros id' [Hq Hne]%Hin'. rewrite Hc'. set_solver.
  - intros id'. rewrite Hc', fmap_app. cbn. set_solver.
  - rewrite fmap_app. cbn. apply NoDup_app. split; [exact Hmn|]. split.
    + intros x Hx ->%list_elem_of_singleton. contradiction.
    + apply NoDup_singleton.
  - intros id' loc [Hin|Hin]%elem_of_app.
    + destruct (Hms id' loc Hin) as (r' & Hr' & Hi'). exists r'. split; [|exact Hi'].
      rewrite lookup_app_l; [exact Hr'|]. eapply lookup_lt_Some, Hr'.
    + apply list_elem_of_singleton in Hin as [= -> ->].
      exists r. split; [|exact Hid].
      rewrite lookup_app_r by lia. rewrite Nat.sub_diag. reflexivity.
Qed.

Lemma consistent_step pol s op :
  consistent s -> consistent (snd (step pol s op)).
Proof.
  intros Hs. destruct op as [job|max now|r|now]; cbn [step].
  - destruct (enqueue job (queue s)) as [q'|] eqn:He; cbn [snd]; [|exact Hs].
    eapply consistent_enqueue; eassumption.
  - pose proof (consistent_lease pol max now s Hs) as H.
    destruct (lease pol max now (queue s)). exact H.
  - apply consistent_submit, Hs.
  - apply consistent_reclaim, Hs.
Qed.

Lemma consistent_run_from pol ops :
  forall s, consistent s -> consistent (run_from pol s ops).
Proof.
  induction ops as [|op ops IH]; intros s Hs; [exact Hs|].
  apply IH, consistent_step, Hs.
Qed.

Lemma consistent_run pol ops : consistent (run pol ops).
Proof. apply consistent_run_from, consistent_empty. Qed.


(** A leased job is not on offer. *)
Lemma leased_not_pending s id :
  consistent s -> id ∈ lease_id <$> leased (queue s) ->
  id ∉ entry_id <$> pending (queue s).
Proof.
  intros [Hnd _ _ _ _] Hl Hp. unfold queue_ids in Hnd.
  apply NoDup_app in Hnd as (_ & Hx & _).
  apply (Hx id Hp). apply elem_of_app. left. exact Hl.
Qed.

(** A job that is leased or completed stays so, as long as nothing is
    reclaimed. *)
Lemma held_step pol s op id :
  is_reclaim op = false ->
  id ∈ lease_id <$> leased (queue s) ∨ id ∈ completed (queue s) ->
  id ∈ lease_id <$> leased (queue (snd (step pol s op)))
  ∨ id ∈ completed (queue (snd (step pol s op))).
Proof.
  intros Hop H. destruct op as [job|max now|r|now]; [| | |discriminate]; cbn [step].
  - destruct (enqueue job (queue s)) as [q'|] eqn:He; cbn [snd]; [|exact H].
    unfold enqueue in He. case_decide; [discriminate|]. injection He as <-. exact H.
  - unfold lease. cbn. rewrite fmap_app, elem_of_app. tauto.
  - unfold submitResult. destruct (result_id r) as [id'|]; [|exact H].
    case_decide; [exact H|]. case_decide as Hl; [|exact H].
    cbn. unfold complete. rewrite decide_True by exact Hl. cbn.
    destruct (decide (id = id')) as [->|Hne]; [right; set_solver|].
    destruct H as [H|H]; [left|right; set_solver].
    apply list_elem_of_fmap in H as (l & -> & Hin).
    apply list_elem_of_fmap_2, list_elem_of_filter. auto.
Qed.

Lemma held_run_from pol ops id :
  forall s,
    forallb (fun op => negb (is_reclaim op)) ops = true ->
    id ∈ lease_id <$> leased (queue s) ∨ id ∈ completed (queue s) ->
    id ∈ lease_id <$> leased (queue (run_from pol s ops))
    ∨ id ∈ completed (queue (run_from pol s ops)).
Proof.
  induction ops as [|op ops IH]; intros s Hops H; [exact H|].
  cbn in Hops. apply andb_prop in Hops as [Hop Hops].
  apply IH; [exact Hops|]. apply held_step; [|exact H].
  destruct (is_reclaim op); [discriminate | reflexivity].
Qed.

(** What [lease] hands out is in the unleased pool, and leased right
    after. *)
Lemma lease_from_pool pol max now q job :
  job ∈ fst (lease pol max now q) ->
  job_id job ∈ entry_id <$> pending q
  ∧ job_id job ∈ lease_id <$> leased (snd (lease pol max now q)).
Proof.
  unfold lease. cbn. intros (e & -> & He)%list_elem_of_fmap. split.
  - rewrite <- (take_drop max (pending q)), fmap_app.
    apply elem_of_app. left. apply (list_elem_of_fmap_2 entry_id), He.
  - rewrite fmap_app, elem_of_app. right.
    rewrite <- list_fmap_compose. apply (list_elem_of_fmap_2 entry_id), He.
Qed.

(** Two pulls with no reclaim in between hand out different jobs. *)
Lemma two_pulls_disjoint pol s max1 now1 mid max2 now2 job1 job2 :
  consistent s ->
  forallb (fun op => negb (is_reclaim op)) mid = true ->
  job1 ∈ fst (lease pol max1 now1 (queue s)) ->
  job2 ∈ fst (lease pol max2 now2
                (queue (run_from pol (snd (step pol s (PullJobs max1 now1))) mid))) ->
  job_id job1 ≠ job_id job2.
Proof.
  intros Hs Hmid H1 H2 Heq.
  set (s1 := snd (step pol s (PullJobs max1 now1))) in *.
  assert (Hs2 : consistent (run_from pol s1 mid)).
  { apply consistent_run_from, consistent_step, Hs. }
  apply lease_from_pool in H1 as [_ H1], H2 as [H2 _].
  assert (Hheld : job_id job1 ∈ lease_id <$> leased (queue s1)
                  ∨ job_id job1 ∈ completed (queue s1)).
  { left. subst s1. cbn [step].
    destruct (lease pol max1 now1 (queue s)) as [jobs q1]. exact H1. }
  apply (held_run_from pol mid _ s1 Hmid) in Hheld.
  rewrite Heq in Hheld. destruct Hheld as [Hl|Hc].
  - exact (leased_not_pending _ _ Hs2 Hl H2).
  - apply (queue_not_completed _ Hs2 (job_id job2)); [|exact Hc].
    unfold queue_ids. apply elem_of_app. left. exact H2.
Qed.

(** Only the reclaim of its expired lease puts a leased job back into the
    unleased pool. *)
Lemma back_to_pool_only_by_reclaim pol s op id :
  consistent s ->
  id ∈ lease_id <$> leased (queue s) ->
  id ∈ entry_id <$> pending (queue (snd (step pol s op))) ->
  ∃ now l, op = Reclaim now ∧ l ∈ leased (queue s) ∧ lease_id l = id ∧ expired now l.
Proof.
  intros Hs Hl Hp. pose proof (leased_not_pending s id Hs Hl) as Hnp.
  destruct op as [job|max now|r|now]; cbn [step] in Hp.
  - exfalso. destruct (enqueue job (queue s)) as [q'|] eqn:He; cbn in Hp; [|auto].
    pose proof He as He'. apply queue_ids_enqueue in He' as (_ & _ & Hq & _).
    unfold enqueue in He. case_decide; [discriminate|]. injection He as <-.
    cbn in Hp. rewrite fmap_app in Hp. apply elem_of_app in Hp as [Hp|Hp]; [auto|].
    apply list_elem_of_singleton in Hp. cbn in Hp. subst id.
    apply Hq. unfold queue_ids. rewrite !elem_of_app. auto.
  - exfalso. unfold lease in Hp. cbn in Hp.
    apply Hnp. rewrite <- (take_drop max (pending (queue s))), fmap_app.
    apply elem_of_app. right. exact Hp.
  - exfalso. unfold submitResult in Hp.
    destruct (result_id r) as [id'|]; [|auto].
    case_decide; [auto|]. case_decide; [|auto].
    cbn in Hp. unfold complete in Hp. case_decide; auto.
  - exists now. cbn in Hp. rewrite fmap_app in Hp.
    apply elem_of_app in Hp as [Hp|Hp]; [contradiction|].
    apply list_elem_of_fmap in Hp as (e & -> & [_ He]%list_elem_of_filter).
    apply list_elem_of_fmap in He as (l & -> & [Hexp Hin]%list_elem_of_filter).
    exists l. auto.
Qed.

(** C6: in every state the server can reach, under any interleaving of
    its callers, no job has two outstanding leases; a leased job is not
    in the unleased pool, so [lease] hands out only jobs without a lease,
    each once; two pulls with no reclaim in between never hand out the
    same job; and a leased job returns to the pool only when [reclaim]
    finds its lease expired. *)
Theorem at_most_one_outstanding_lease (pol : Policy) (ops : list Op) :
  NoDup (lease_id <$> leased (queue (run pol ops)))
  ∧ (∀ id, id ∈ lease_id <$> leased (queue (run pol ops)) →
           id ∉ entry_id <$> pending (queue (run pol ops)))
  ∧ (∀ max now,
        NoDup (job_id <$> fst (lease pol max now (queue (run pol ops))))
        ∧ ∀ job, job ∈ fst (lease pol max now (queue (run pol ops))) →
                 job_id job ∉ lease_id <$> leased (queue (run pol ops)))
  ∧ (∀ max1 now1 mid max2 now2 job1 job2,
        forallb (λ op, negb (is_reclaim op)) mid = true →
        job1 ∈ fst (lease pol max1 now1 (queue (run pol ops))) →
        job2 ∈ fst (lease pol max2 now2
                      (queue (run_from pol
                                (snd (step pol (run pol ops) (PullJobs max1 now1)))
                                mid))) →
        job_id job1 ≠ job_id job2)
  ∧ (∀ op id,
        id ∈ lease_id <$> leased (queue (run pol ops)) →
        id ∈ entry_id <$> pending (queue (snd (step pol (run pol ops) op))) →
        ∃ now l, op = Reclaim now ∧ l ∈ leased (queue (run pol ops))
                 ∧ lease_id l = id ∧ expired now l).
Proof.
  pose proof (consistent_run pol ops) as Hs. set (s := run pol ops) in *.
  pose proof (queue_nodup s Hs) as Hnd. unfold queue_ids in Hnd.
  apply NoDup_app in Hnd as (HP & HPx & Hnd).
  apply NoDup_app in Hnd as (HL & _ & _).
  split; [exact HL|]. split; [intros id; apply leased_not_pending, Hs|].
  split; [|split; [|intros op id; apply back_to_pool_only_by_reclaim, Hs]].
  2:{ intros max1 now1 mid max2 now2 job1 job2 Hmid H1 H2.
      eapply two_pulls_disjoint; eassumption. }
  intros max now. unfold lease. cbn [fst].
  rewrite <- list_fmap_compose. change (job_id ∘ entry_job) with entry_id.
  rewrite <- (take_drop max (pending (queue s))), fmap_app in HP, HPx.
  apply NoDup_app in HP as (HT & _ & _). split; [exact HT|].
  intros job (e & -> & He)%list_elem_of_fmap Hl.
  apply (HPx (entry_id e)); [|apply elem_of_app; left; exact Hl].
  apply elem_of_app. left. apply list_elem_of_fmap_2, He.
Qed.

(** The Manifest and the sink only grow, at their ends. *)
Lemma append_only pol s op :
  manifest s `prefix_of` manifest (snd (step pol s op))
  ∧ sink s `prefix_of` sink (snd (step pol s op)).
Proof.
  destruct op as [job|max now|r|now]; cbn [step].
  - destruct (enqueue job (queue s)); cbn; split; reflexivity.
  - destruct (lease pol max now (queue s)); cbn; split; reflexivity.
  - unfold submitResult. destruct (result_id r); [|split; reflexivity].
    case_decide; [split; reflexivity|]. case_decide; [|split; reflexivity].
    cbn. split; apply prefix_app_r; reflexivity.
  - cbn; split; reflexivity.
Qed.

(** C7: in every state the server can reach, a Result for an identifier
    already in the Manifest is answered with the duplicate error and
    changes nothing; the Manifest lists no identifier twice and lists
    exactly the completed jobs, so each completed job has exactly one
    entry, and that entry points at a Result in the sink; no operation
    removes or rewrites an entry. *)
Theorem duplicate_result_is_rejected (pol : Policy) (ops : list Op) :
  (∀ r id, result_id r = Some id → id ∈ (manifest (run pol ops)).*1 →
           submitResult r (run pol ops) = (Duplicate, run pol ops))
  ∧ NoDup (manifest (run pol ops)).*1
  ∧ (∀ id, id ∈ completed (queue (run pol ops)) ↔ id ∈ (manifest (run pol ops)).*1)
  ∧ (∀ id loc, (id, loc) ∈ manifest (run pol ops) →
               ∃ r, sink (run pol ops) !! loc = Some r ∧ result_id r = Some id)
  ∧ (∀ op, manifest (run pol ops) `prefix_of` manifest (snd (step pol (run pol ops) op))).
Proof.
  destruct (consistent_run pol ops) as [_ _ Hmc Hmn Hms].
  split; [|repeat split; auto; try apply Hmc; intros op; apply append_only].
  intros r id Hid Hin. unfold submitResult. rewrite Hid.
  rewrite decide_True by exact Hin. reflexivity.
Qed.

(** The scenario of the protocol: enqueue [a] and [b]; two pulls of one
    job return [a] then [b]; a result for [a] is accepted, the same
    result again is a duplicate and leaves the server as it was. *)
Example enqueue_pull_submit_twice :
  let pol := mkPolicy 30 3 in
  let a := mkJob "a" "http://a.example/" 0 in
  let b := mkJob "b" "http://b.example/" 1 in
  let r := mkResult (Some "a") "worker-1" "<html></html>" success 4 in
  replies pol empty
    [Enqueue a; Enqueue b; PullJobs 1 2; PullJobs 1 3; SubmitResult r; SubmitResult r]
  = [Done; Done; Jobs [a]; Jobs [b]; Accepted; Duplicate]
  ∧ run pol [Enqueue a; Enqueue b; PullJobs 1 2; PullJobs 1 3; SubmitResult r; SubmitResult r]
    = run pol [Enqueue a; Enqueue b; PullJobs 1 2; PullJobs 1 3; SubmitResult r]
  ∧ manifest (run pol [Enqueue a; Enqueue b; PullJobs 1 2; PullJobs 1 3;
                       SubmitResult r; SubmitResult r])
    = [("a", 0)].
Proof. vm_compute. auto. Qed.

End DispatchProofs.

(** ** worker.js: the rest *)

Module WorkerMoreProofs.
Import Json Worker WorkerFacts WorkerProofs WorkerMore.
Local Open Scope list_scope.

Arguments exec : simpl never.

Lemma observe_iter {E R I} (body : I -> itree E (I + R)) (i : I) :
  observe (ITree.iter body i)
  = observe (ITree.bind (body i) (fun lr =>
               match lr with
               | inl l => Tau (ITree.iter body l)
               | inr r => Ret r
               end)).
Proof. reflexivity. Qed.

Lemma observe_try_catch_tau {R} (t t' : itree workerE R) h :
  observe t = TauF t' -> observe (try_catch t h) = TauF (try_catch t' h).
Proof.
  intros H. unfold workerE in *. unfold try_catch.
  rewrite observe_iter, observe_bind. cbv beta zeta. rewrite H. reflexivity.
Qed.

Lemma observe_try_catch_vis {R X} (t : itree workerE R) (e : nodeE X) k h :
  observe t = VisF (inr1 e) k ->
  exists k', observe (try_catch t h) = VisF (inr1 e) k'
             /\ forall x, observe (k' x) = TauF (try_catch (k x) h).
Proof.
  intros H. unfold workerE in *. unfold try_catch.
  rewrite observe_iter, observe_bind. cbv beta zeta. rewrite H.
  cbn. eexists. split; [reflexivity|]. intros x. cbn. reflexivity.
Qed.

Lemma exec_ret {R} fuel env i (t : itree workerE R) r :
  observe t = RetF r -> exec (S fuel) env i t = ([], Returned r).
Proof. intros H. rewrite exec_S. unfold workerE in *. rewrite H. reflexivity. Qed.

Lemma exec_tau {R} fuel env i (t t' : itree workerE R) :
  observe t = TauF t' -> exec (S fuel) env i t = exec fuel env i t'.
Proof. intros H. rewrite exec_S. unfold workerE in *. rewrite H. reflexivity. Qed.

Lemma exec_throw {R X} fuel env i (t : itree workerE R) (ex : exceptE JsError X) k :
  observe t = VisF (inl1 ex) k ->
  exec (S fuel) env i t = ([], Uncaught (match ex with Throw err => err end)).
Proof.
  intros H. rewrite exec_S. unfold workerE in *. rewrite H.
  destruct ex. reflexivity.
Qed.

Lemma exec_vis {R X} fuel env i (t : itree workerE R) (e : nodeE X) k :
  observe t = VisF (inr1 e) k ->
  exec (S fuel) env i t
  = (Obs e (env X e i) :: fst (exec fuel env (S i) (k (env X e i))),
     snd (exec fuel env (S i) (k (env X e i)))).
Proof.
  intros H. rewrite exec_S. unfold workerE in *. rewrite H. cbv zeta.
  destruct (exec fuel env (S i) (k (env X e i))). reflexivity.
Qed.

(** Under [try_catch], a computation that never throws and never returns
    makes its own calls and nothing else: the handler does not run. *)
Lemma exec_try_catch_running {R} (h : JsError -> itree workerE R) :
  forall fuel env i (t : itree workerE R),
    (forall f, snd (exec f env i t) = Running) ->
    exists os, exec fuel env i (try_catch t h) = (os, Running)
               /\ os `prefix_of` fst (exec fuel env i t).
Proof.
  induction fuel as [fuel IH] using lt_wf_ind. intros env i t Hrun.
  destruct fuel as [|f0].
  { exists []. split; [reflexivity|]. apply prefix_nil. }
  destruct (observe t) as [r|t'|X e k] eqn:Ht.
  - specialize (Hrun 1). rewrite (exec_ret _ _ _ _ _ Ht) in Hrun. discriminate.
  - rewrite (exec_tau f0 env i _ _ (observe_try_catch_tau _ _ h Ht)).
    rewrite (exec_tau f0 env i _ _ Ht).
    apply IH; [lia|]. intros f. specialize (Hrun (S f)).
    rewrite (exec_tau _ _ _ _ _ Ht) in Hrun. exact Hrun.
  - destruct e as [ex|e'].
    { specialize (Hrun 1).
      rewrite (exec_throw _ _ _ _ _ _ Ht) in Hrun. discriminate. }
    destruct (observe_try_catch_vis _ _ _ h Ht) as (k' & Hk' & Hx).
    rewrite (exec_vis f0 env i _ _ _ Hk'), (exec_vis f0 env i _ _ _ Ht).
    set (x := env X e' i).
    assert (Hkx : forall f, snd (exec f env (S i) (k x)) = Running).
    { intros f. specialize (Hrun (S f)).
      rewrite (exec_vis _ _ _ _ _ _ Ht) in Hrun. exact Hrun. }
    destruct f0 as [|f1].
    + exists [Obs e' x]. split; [reflexivity|].
      apply prefix_cons, prefix_nil.
    + rewrite (exec_tau f1 env (S i) _ _ (Hx x)).
      destruct (IH f1 ltac:(lia) env (S i) (k x) Hkx) as (os1 & Hos1 & Hpre).
      rewrite Hos1. exists (Obs e' x :: os1). split; [reflexivity|].
      pose proof (Hkx (S f1)) as Hr.
      destruct (exec (S f1) env (S i) (k x)) as [os2 o2] eqn:H2.
      cbn [snd] in Hr. subst o2.
      destruct (exec_running_prefix f1 (S f1) env (S i) (k x) os2 H2 ltac:(lia))
        as (os3 & H3 & Hp3).
      rewrite H3 in Hpre. cbn [fst] in *.
      apply prefix_cons. etransitivity; [exact Hpre | exact Hp3].
Qed.

(** X8. The rejection handler of [run().catch(...)] never runs: whatever
    the world answers and however long the worker runs, the main program
    has not returned, and the calls it has made are the start-up line
    followed by polling iterations, for every handler. *)
Theorem rejection_handler_never_runs envURL coerce on_rejected env fuel :
  exists n os,
    exec fuel env 0 (main_with envURL coerce on_rejected) = (os, Running)
    /\ os `prefix_of` (started :: concat (iterations envURL coerce n env 1)).
Proof.
  assert (Hrun : forall f, snd (exec f env 0 (run envURL coerce)) = Running).
  { intros f. destruct (run_running envURL coerce env f) as (n & os & H & _).
    rewrite H. reflexivity. }
  destruct (exec_try_catch_running on_rejected fuel env 0 _ Hrun) as (os & H & Hpre).
  destruct (run_running envURL coerce env fuel) as (n & os' & H' & Hpre').
  exists n, os. split; [exact H|].
  rewrite H' in Hpre. etransitivity; [exact Hpre | exact Hpre'].
Qed.


Section Worker.
Variable envURL : option string.
Variable coerce : JsValue -> bool.
Local Abbreviation processJob := (processJob envURL).
Local Abbreviation post_result := (post_result envURL).
Local Abbreviation get_jobs := (get_jobs envURL).
Local Abbreviation cycle := (cycle envURL coerce).
Local Abbreviation run := (run envURL coerce).
Local Abbreviation iterations := (iterations envURL coerce).

(** *** [processJob] *)

(** How a [processJob] call can end: it returns after the full series
    of calls, or it throws because a call was rejected or [job.url]
    could not be read, having sent nothing and loaded no page but the
    job's. *)
Lemma processJob_outcome job env i os o :
  exec cycle_fuel env i (processJob job) = (os, o) ->
  match o with
  | Returned _ =>
      exists b p url html x,
        get_prop job "url" = inr url
        /\ os = [Obs (ChromiumLaunch true) (inr b);
                 Obs (BrowserNewPage b) (inr p);
                 Obs (PageGoto p url "networkidle") (inr tt);
                 Obs (PageContent p) (inr html);
                 Obs (BrowserClose b) (inr tt);
                 Obs (Fetch (post_result (result_of url html))) x]
                ++ match x with
                   | inl err =>
                       [Obs (ConsoleError "Failed to post result:" (message err)) tt]
                   | inr _ => []
                   end
                ++ [Obs (ConsoleLog (LJson (stringify_obj (result_of url html)))) tt]
  | Uncaught err =>
      requests os = []
      /\ Forall (fun url => get_prop job "url" = inr url) (gotos os)
      /\ head (List.map call_of os) = Some (Call (ChromiumLaunch true))
      /\ (get_prop job "url" = inl err
          \/ match last os with
             | Some o => rejection o = Some err
             | None => False
             end)
  | Running => False
  end.
Proof.
  unfold cycle_fuel, Worker.processJob. revert os o. walk.
  all: intros os o [= <- <-].
  all: repeat match goal with u : unit |- _ => destruct u end.
  all: first
         [ match goal with
           | Hb : _ _ (ChromiumLaunch true) _ = inr ?b,
             Hp : _ _ (BrowserNewPage _) _ = inr ?p,
             Hu : get_prop _ _ = inr ?url,
             Hc : _ _ (PageContent _) _ = inr ?html,
             Hf : _ _ (Fetch _) _ = ?x |- _ => exists b, p, url, html, x
           end; split; reflexivity
         | split; [reflexivity|]; split; [repeat constructor|];
           split; [reflexivity|];
           first [left; reflexivity | right; reflexivity] ].
Qed.

(** X2. When the browser does its part, [processJob] makes exactly
    these calls, in this order, and returns: launch a headless browser,
    open a page in that browser, load the job's [url] in that page
    waiting for the network to go idle, read that page's content,
    close that browser, POST the result, and log the result.  The
    browser is closed before anything is sent; the result carries the
    [url] that was loaded and the content that was read, with [bytes]
    its length; the line logged is the body posted.  Whether the POST
    is accepted or rejected makes no difference but one: a rejection
    is logged under ["Failed to post result:"]; it does not make
    [processJob] throw. *)
Theorem processJob_calls_in_order job (env : oracle) i b p url html :
  env _ (ChromiumLaunch true) i = inr b ->
  env _ (BrowserNewPage b) (S i) = inr p ->
  get_prop job "url" = inr url ->
  env _ (PageGoto p url "networkidle") (S (S i)) = inr tt ->
  env _ (PageContent p) (S (S (S i))) = inr html ->
  env _ (BrowserClose b) (S (S (S (S i)))) = inr tt ->
  exec cycle_fuel env i (processJob job)
  = ([Obs (ChromiumLaunch true) (inr b);
      Obs (BrowserNewPage b) (inr p);
      Obs (PageGoto p url "networkidle") (inr tt);
      Obs (PageContent p) (inr html);
      Obs (BrowserClose b) (inr tt);
      Obs (Fetch (post_result (result_of url html)))
        (env _ (Fetch (post_result (result_of url html))) (S (S (S (S (S i))))))]
     ++ match env _ (Fetch (post_result (result_of url html))) (S (S (S (S (S i))))) with
        | inl err => [Obs (ConsoleError "Failed to post result:" (message err)) tt]
        | inr _ => []
        end
     ++ [Obs (ConsoleLog (LJson (stringify_obj (result_of url html)))) tt],
     Returned tt).
Proof.
  intros Hb Hp Hu Hg Hc Hx. unfold Browser, Page in *.
  unfold cycle_fuel, Worker.processJob. walk. all: reflexivity.
Qed.

(** X3. The six ways [processJob] throws: the launch, the new page, the
    read of [job.url], the navigation, the read of the content or the
    close was rejected, and the error thrown is that rejection.  In each
    of them nothing has been sent or logged, and unless the launch
    itself failed, a browser has been launched that no call has
    closed: [processJob] has no [finally]. *)
Theorem processJob_failure_leaves_browser_open job env i os err :
  exec cycle_fuel env i (processJob job) = (os, Uncaught err) ->
  os = [Obs (ChromiumLaunch true) (inl err)]
  \/ (exists b,
        os = [Obs (ChromiumLaunch true) (inr b);
              Obs (BrowserNewPage b) (inl err)])
  \/ (exists b p,
        get_prop job "url" = inl err
        /\ os = [Obs (ChromiumLaunch true) (inr b);
                 Obs (BrowserNewPage b) (inr p)])
  \/ (exists b p url,
        os = [Obs (ChromiumLaunch true) (inr b);
              Obs (BrowserNewPage b) (inr p);
              Obs (PageGoto p url "networkidle") (inl err)])
  \/ (exists b p url,
        os = [Obs (ChromiumLaunch true) (inr b);
              Obs (BrowserNewPage b) (inr p);
              Obs (PageGoto p url "networkidle") (inr tt);
              Obs (PageContent p) (inl err)])
  \/ (exists b p url html,
        os = [Obs (ChromiumLaunch true) (inr b);
              Obs (BrowserNewPage b) (inr p);
              Obs (PageGoto p url "networkidle") (inr tt);
              Obs (PageContent p) (inr html);
              Obs (BrowserClose b) (inl err)]).
Proof.
  unfold cycle_fuel, Worker.processJob. revert os err. walk.
  all: intros os err0 H; try discriminate H.
  all: injection H as <- <-.
  all: repeat match goal with u : unit |- _ => destruct u end.
  - left. reflexivity.
  - right. left. eexists. reflexivity.
  - right. right. left. eexists _, _. split; reflexivity.
  - right. right. right. left. eexists _, _, _. reflexivity.
  - right. right. right. right. left. eexists _, _, _. reflexivity.
  - right. right. right. right. right. eexists _, _, _, _. reflexivity.
Qed.

(** X4. A job with no [url] is not turned away: with a browser
    launched and a page open, [processJob] calls [page.goto] on
    [undefined].  When that call is rejected, [processJob] throws the
    rejection having made these three calls and no other: nothing is
    posted or logged, and the browser stays open. *)
Theorem job_without_url_is_sent_to_undefined job (env : oracle) i b p :
  get_prop job "url" = inr JUndefined ->
  env _ (ChromiumLaunch true) i = inr b ->
  env _ (BrowserNewPage b) (S i) = inr p ->
  firstn 3 (fst (exec cycle_fuel env i (processJob job)))
  = [Obs (ChromiumLaunch true) (inr b);
     Obs (BrowserNewPage b) (inr p);
     Obs (PageGoto p JUndefined "networkidle")
       (env _ (PageGoto p JUndefined "networkidle") (S (S i)))]
  /\ match env _ (PageGoto p JUndefined "networkidle") (S (S i)) with
     | inl err =>
         exec cycle_fuel env i (processJob job)
         = ([Obs (ChromiumLaunch true) (inr b);
             Obs (BrowserNewPage b) (inr p);
             Obs (PageGoto p JUndefined "networkidle") (inl err)],
            Uncaught err)
     | inr _ => True
     end.
Proof.
  intros Hu Hb Hp. unfold Browser, Page in *.
  unfold cycle_fuel, Worker.processJob. walk.
  all: split; first [reflexivity | exact I].
Qed.

(** *** One turn of the loop *)

(** [processJob] under the catch clause of [run]. *)
Lemma guarded_processJob job env i os o :
  exec cycle_fuel env i (processJob job) = (os, o) ->
  exec cycle_fuel env i (guarded (processJob job))
  = (os ++ match o with
           | Uncaught err => [Obs (ConsoleError "Error polling jobs:" (message err)) tt]
           | _ => []
           end,
     Returned tt).
Proof.
  unfold cycle_fuel, Worker.guarded, Worker.processJob. revert os o. walk.
  all: intros os o [= <- <-]; reflexivity.
Qed.

(** X5. A turn of the loop that takes a job is the poll, the calls of
    [processJob] on the first job, and the timer; if [processJob]
    throws, whichever call failed, the turn does not: the error is
    logged under the label of the polling errors and the timer
    follows as after any other turn. *)
Theorem job_failure_is_reported_as_polling_error
    (env : oracle) i response data job rest osj o :
  env _ (Fetch get_jobs) i = inr response ->
  env _ (ResponseJson response) (S i) = inr data ->
  get_prop data "jobs" = inr (JArr (job :: rest)) ->
  exec cycle_fuel env (S (S i)) (processJob job) = (osj, o) ->
  exec cycle_fuel env i cycle
  = (Obs (Fetch get_jobs) (inr response)
       :: Obs (ResponseJson response) (inr data)
       :: osj
       ++ match o with
          | Uncaught err => [Obs (ConsoleError "Error polling jobs:" (message err)) tt]
          | _ => []
          end
       ++ [sleep],
     Returned tt).
Proof.
  intros H1 H2 H3 Hj.
  rewrite cycle_exec.
  rewrite (cycle_first_job envURL coerce env i response data job rest H1 H2 H3).
  rewrite (guarded_processJob job env (S (S i)) osj o Hj). cbn [fst].
  rewrite <- app_assoc. reflexivity.
Qed.

(** X6. A poll answered with no job to take: [jobs] missing, [null],
    [false], [0], the empty string, or an empty array.  The turn is
    the poll, the read of its body, and the timer: no browser, no
    request, no log line. *)
Theorem nothing_to_do_is_silent (env : oracle) i response data jobs :
  env _ (Fetch get_jobs) i = inr response ->
  env _ (ResponseJson response) (S i) = inr data ->
  get_prop data "jobs" = inr jobs ->
  truthy jobs = false \/ jobs = JArr [] ->
  exec cycle_fuel env i cycle
  = ([Obs (Fetch get_jobs) (inr response);
      Obs (ResponseJson response) (inr data);
      sleep],
     Returned tt).
Proof.
  intros H1 H2 H3 Hv.
  assert (Hg : js_gt0 coerce (js_length (js_or jobs (JArr []))) = false).
  { destruct Hv as [Ht | ->]; [unfold js_or; rewrite Ht|]; reflexivity. }
  unfold cycle_fuel, Worker.cycle, Worker.processJob.
  unfold Worker.get_jobs in *.
  walk. all: reflexivity.
Qed.

(** X7. A poll that is answered, but not with an object: if the body
    cannot be read as JSON, or is [null] so that reading [jobs] throws,
    the turn logs the error under ["Error polling jobs:"] and goes to
    the timer; no browser is launched. *)
Theorem unreadable_poll_answer_is_logged (env : oracle) i response :
  env _ (Fetch get_jobs) i = inr response ->
  match env _ (ResponseJson response) (S i) with
  | inl err =>
      exec cycle_fuel env i cycle
      = ([Obs (Fetch get_jobs) (inr response);
          Obs (ResponseJson response) (inl err);
          Obs (ConsoleError "Error polling jobs:" (message err)) tt;
          sleep],
         Returned tt)
  | inr data =>
      match get_prop data "jobs" with
      | inl err =>
          exec cycle_fuel env i cycle
          = ([Obs (Fetch get_jobs) (inr response);
              Obs (ResponseJson response) (inr data);
              Obs (ConsoleError "Error polling jobs:" (message err)) tt;
              sleep],
             Returned tt)
      | inr _ => True
      end
  end.
Proof.
  intros H1.
  unfold cycle_fuel, Worker.cycle, Worker.processJob.
  unfold Worker.get_jobs in *.
  destruct (env _ (ResponseJson response) (S i)) as [err|data] eqn:H2.
  - walk. all: reflexivity.
  - destruct (get_prop data "jobs") as [err|jobs] eqn:H3; [|exact I].
    walk. all: reflexivity.
Qed.

(** *** The whole run *)



End Worker.

(** X2 at work: the page of [job_a] is read, and the POST is rejected. *)
Lemma processJob_calls_in_order_witness :
  env_post_down _ (ChromiumLaunch true) 3 = inr 1
  /\ env_post_down _ (BrowserNewPage 1) 4 = inr 2
  /\ get_prop job_a "url" = inr (JStr "http://a.example/")
  /\ env_post_down _ (PageGoto 2 (JStr "http://a.example/") "networkidle") 5 = inr tt
  /\ env_post_down _ (PageContent 2) 6 = inr "<html></html>"
  /\ env_post_down _ (BrowserClose 1) 7 = inr tt
  /\ exec cycle_fuel env_post_down 3 (processJob None job_a)
     = ([Obs (ChromiumLaunch true) (inr 1);
         Obs (BrowserNewPage 1) (inr 2);
         Obs (PageGoto 2 (JStr "http://a.example/") "networkidle") (inr tt);
         Obs (PageContent 2) (inr "<html></html>");
         Obs (BrowserClose 1) (inr tt);
         Obs (Fetch (post_result None (result_of (JStr "http://a.example/") "<html></html>")))
           (inl (mkError "fetch failed"));
         Obs (ConsoleError "Failed to post result:" "fetch failed") tt;
         Obs (ConsoleLog (LJson (stringify_obj
                                   (result_of (JStr "http://a.example/") "<html></html>")))) tt],
        Returned tt).
Proof.
  do 6 (split; [reflexivity|]).
  apply (processJob_calls_in_order None job_a env_post_down 3 1 2
           (JStr "http://a.example/") "<html></html>"
           eq_refl eq_refl eq_refl eq_refl eq_refl eq_refl).
Defined.

(** X3 at work: the page is read, then the browser cannot be closed. *)
Lemma processJob_failure_leaves_browser_open_witness :
  exec cycle_fuel env_close_fails 3 (processJob None job_a)
  = ([Obs (ChromiumLaunch true) (inr 1);
      Obs (BrowserNewPage 1) (inr 2);
      Obs (PageGoto 2 (JStr "http://a.example/") "networkidle") (inr tt);
      Obs (PageContent 2) (inr "<html></html>");
      Obs (BrowserClose 1) (inl (mkError "Target closed"))],
     Uncaught (mkError "Target closed"))
  /\ exists b p url html,
       [Obs (ChromiumLaunch true) (inr 1);
        Obs (BrowserNewPage 1) (inr 2);
        Obs (PageGoto 2 (JStr "http://a.example/") "networkidle") (inr tt);
        Obs (PageContent 2) (inr "<html></html>");
        Obs (BrowserClose 1) (inl (mkError "Target closed"))]
       = [Obs (ChromiumLaunch true) (inr b);
          Obs (BrowserNewPage b) (inr p);
          Obs (PageGoto p url "networkidle") (inr tt);
          Obs (PageContent p) (inr html);
          Obs (BrowserClose b) (inl (mkError "Target closed"))].
Proof.
  split; [vm_compute; reflexivity|].
  destruct (processJob_failure_leaves_browser_open None job_a env_close_fails 3
              [Obs (ChromiumLaunch true) (inr 1);
               Obs (BrowserNewPage 1) (inr 2);
               Obs (PageGoto 2 (JStr "http://a.example/") "networkidle") (inr tt);
               Obs (PageContent 2) (inr "<html></html>");
               Obs (BrowserClose 1) (inl (mkError "Target closed"))]
              (mkError "Target closed") eq_refl)
    as [H|[[b H]|[(b & p & _ & H)|[(b & p & url & H)|[(b & p & url & H)|H]]]]];
    try (apply (f_equal (@length obs)) in H; discriminate H).
  exact H.
Defined.

(** X4 at work: a job that has an [id] and nothing else, and a browser
    that refuses to navigate. *)
Lemma job_without_url_is_sent_to_undefined_witness :
  get_prop job_no_url "url" = inr JUndefined
  /\ env_goto_fails _ (ChromiumLaunch true) 3 = inr 1
  /\ env_goto_fails _ (BrowserNewPage 1) 4 = inr 2
  /\ firstn 3 (fst (exec cycle_fuel env_goto_fails 3 (processJob None job_no_url)))
     = [Obs (ChromiumLaunch true) (inr 1);
        Obs (BrowserNewPage 1) (inr 2);
        Obs (PageGoto 2 JUndefined "networkidle")
          (inl (mkError "net::ERR_NAME_NOT_RESOLVED"))]
  /\ exec cycle_fuel env_goto_fails 3 (processJob None job_no_url)
     = ([Obs (ChromiumLaunch true) (inr 1);
         Obs (BrowserNewPage 1) (inr 2);
         Obs (PageGoto 2 JUndefined "networkidle")
           (inl (mkError "net::ERR_NAME_NOT_RESOLVED"))],
        Uncaught (mkError "net::ERR_NAME_NOT_RESOLVED")).
Proof.
  do 3 (split; [reflexivity|]).
  apply (job_without_url_is_sent_to_undefined None job_no_url env_goto_fails 3 1 2
           eq_refl eq_refl eq_refl).
Defined.

(** X5 at work: the first job's page cannot be loaded. *)
Lemma job_failure_is_reported_as_polling_error_witness :
  env_goto_fails _ (Fetch (get_jobs None)) 1 = inr (mkResponse 200 1)
  /\ env_goto_fails _ (ResponseJson (mkResponse 200 1)) 2
     = inr (JObj [("jobs", JArr [job_a; job_b])])
  /\ get_prop (JObj [("jobs", JArr [job_a; job_b])]) "jobs" = inr (JArr [job_a; job_b])
  /\ exec cycle_fuel env_goto_fails 3 (processJob None job_a)
     = ([Obs (ChromiumLaunch true) (inr 1);
         Obs (BrowserNewPage 1) (inr 2);
         Obs (PageGoto 2 (JStr "http://a.example/") "networkidle")
           (inl (mkError "net::ERR_NAME_NOT_RESOLVED"))],
        Uncaught (mkError "net::ERR_NAME_NOT_RESOLVED"))
  /\ exec cycle_fuel env_goto_fails 1 (cycle None (fun _ => false))
     = ([Obs (Fetch (get_jobs None)) (inr (mkResponse 200 1));
         Obs (ResponseJson (mkResponse 200 1)) (inr (JObj [("jobs", JArr [job_a; job_b])]));
         Obs (ChromiumLaunch true) (inr 1);
         Obs (BrowserNewPage 1) (inr 2);
         Obs (PageGoto 2 (JStr "http://a.example/") "networkidle")
           (inl (mkError "net::ERR_NAME_NOT_RESOLVED"));
         Obs (ConsoleError "Error polling jobs:" "net::ERR_NAME_NOT_RESOLVED") tt;
         sleep],
        Returned tt).
Proof.
  split; [reflexivity|]. split; [reflexivity|]. split; [reflexivity|].
  split; [vm_compute; reflexivity|].
  apply (job_failure_is_reported_as_polling_error None (fun _ => false) env_goto_fails 1
           (mkResponse 200 1) (JObj [("jobs", JArr [job_a; job_b])]) job_a [job_b]
           _ _ eq_refl eq_refl eq_refl eq_refl).
Defined.

(** X6 at work: a later poll of the healthy orchestrator, which has no
    job left. *)
Lemma nothing_to_do_is_silent_witness :
  env_serving 200 _ (Fetch (get_jobs None)) 5 = inr (mkResponse 200 5)
  /\ env_serving 200 _ (ResponseJson (mkResponse 200 5)) 6 = inr (JObj [("jobs", JArr [])])
  /\ get_prop (JObj [("jobs", JArr [])]) "jobs" = inr (JArr [])
  /\ (truthy (JArr []) = false \/ JArr [] = JArr [])
  /\ exec cycle_fuel (env_serving 200) 5 (cycle None (fun _ => false))
     = ([Obs (Fetch (get_jobs None)) (inr (mkResponse 200 5));
         Obs (ResponseJson (mkResponse 200 5)) (inr (JObj [("jobs", JArr [])]));
         sleep],
        Returned tt).
Proof.
  split; [reflexivity|]. split; [reflexivity|]. split; [reflexivity|].
  split; [right; reflexivity|].
  apply (nothing_to_do_is_silent None (fun _ => false) (env_serving 200) 5
           (mkResponse 200 5) (JObj [("jobs", JArr [])]) (JArr [])
           eq_refl eq_refl eq_refl (or_intror eq_refl)).
Defined.

(** X7 at work: the orchestrator answers [null]. *)
Lemma unreadable_poll_answer_is_logged_witness :
  env_null_data _ (Fetch (get_jobs None)) 1 = inr (mkResponse 200 1)
  /\ exec cycle_fuel env_null_data 1 (cycle None (fun _ => false))
     = ([Obs (Fetch (get_jobs None)) (inr (mkResponse 200 1));
         Obs (ResponseJson (mkResponse 200 1)) (inr JNull);
         Obs (ConsoleError "Error polling jobs:"
                "Cannot read properties of null (reading 'jobs')") tt;
         sleep],
        Returned tt).
Proof.
  split; [reflexivity|].
  apply (unreadable_poll_answer_is_logged None (fun _ => false) env_null_data 1
           (mkResponse 200 1) eq_refl).
Defined.

End WorkerMoreProofs.

(** ** launch_crawler_team.js: the rest *)

Module LauncherMoreProofs.
Import Launcher LauncherProofs LauncherMore.
Local Open Scope list_scope.

Lemma nat_to_string_inj n m : nat_to_string n = nat_to_string m -> n = m.
Proof.
  unfold nat_to_string. intros H.
  apply DecimalNat.Unsigned.to_uint_inj.
  apply (f_equal NilEmpty.uint_of_string) in H.
  rewrite !NilEmpty.usu in H. congruence.
Qed.

Lemma workerId_inj i j : workerId i = workerId j -> i = j.
Proof.
  unfold workerId. intros H. cbn in H. injection H as H.
  apply nat_to_string_inj in H. lia.
Qed.

(** X9. The spawn loop, for any number of workers: turn [i] logs, then
    spawns [node worker.js worker-<i+1>] with inherited stdio; [workers]
    receives the ids in spawn order after what it held; and no two
    turns use the same id. *)
Theorem spawn_loop_gives_each_worker_its_own_id (count from : nat) (ws : list string) :
  fst (spawn_loop count from ws) = ws ++ List.map workerId (seq from count)
  /\ snd (spawn_loop count from ws)
     = flat_map (fun i => [ConsoleLog ("Starting " ++ workerId i ++ "...")%string;
                           spawn_of i])
         (seq from count)
  /\ NoDup (List.map workerId (seq from count)).
Proof.
  split; [|split].
  - revert from ws. induction count as [|count IH]; intros from ws.
    + cbn. rewrite app_nil_r. reflexivity.
    + cbn [spawn_loop seq List.map]. specialize (IH (S from) (ws ++ [workerId from])).
      destruct (spawn_loop count (S from) (ws ++ [workerId from])) as [ws' effs].
      cbn [fst] in *. rewrite IH, <- app_assoc. reflexivity.
  - revert from ws. induction count as [|count IH]; intros from ws; [reflexivity|].
    cbn [spawn_loop seq flat_map]. specialize (IH (S from) (ws ++ [workerId from])).
    destruct (spawn_loop count (S from) (ws ++ [workerId from])) as [ws' effs].
    cbn [snd] in *. rewrite IH. reflexivity.
  - apply NoDup_fmap_2; [|apply NoDup_ListNoDup, List.seq_NoDup].
    intros i j. apply workerId_inj.
Qed.

Lemma react_quiet st input :
  is_sig input = false ->
  fst (react st input) = st /\ forallb is_console (snd (react st input)) = true.
Proof.
  intros H. unfold react. destruct (exited st); [split; reflexivity|].
  destruct input as [child code|child err|s]; [| |discriminate H].
  - destruct (nth_error (workers st) child); split; reflexivity.
  - destruct (nth_error (workers st) child); split; reflexivity.
Qed.

Lemma react_all_quiet inputs :
  forall st,
    forallb (fun input => negb (is_sig input)) inputs = true ->
    fst (react_all st inputs) = st
    /\ forallb is_console (snd (react_all st inputs)) = true.
Proof.
  induction inputs as [|input inputs IH]; intros st H; [split; reflexivity|].
  cbn [forallb] in H. apply andb_prop in H. destruct H as [H1 H2].
  apply negb_true_iff in H1.
  cbn [react_all]. destruct (react_quiet st input H1) as [Hst Hc].
  destruct (react st input) as [st1 effs1]. cbn [fst snd] in *. subst st1.
  destruct (IH st H2) as [Hst2 Hc2].
  destruct (react_all st inputs) as [st2 effs2]. cbn [fst snd] in *.
  split; [exact Hst2|]. rewrite forallb_app, Hc, Hc2. reflexivity.
Qed.

Lemma launch_effects inputs :
  launch inputs
  = (fst (react_all (fst startup) inputs),
     snd startup ++ snd (react_all (fst startup) inputs)).
Proof.
  unfold launch. destruct startup as [st0 effs0]. cbn [fst snd].
  destruct (react_all st0 inputs); reflexivity.
Qed.

(** X10. Until a signal arrives the launcher only writes to the console:
    whatever its workers do, close or fail, in whatever number and order,
    it kills no process, spawns none and does not call [process.exit];
    its list of workers stays as the startup left it. *)
Theorem launcher_only_logs_until_signalled (inputs : list Input) :
  forallb (fun input => negb (is_sig input)) inputs = true ->
  exists logs,
    launch inputs
    = (mkState ["worker-1"; "worker-2"; "worker-3"]%string None, snd startup ++ logs)
    /\ forallb is_console logs = true.
Proof.
  intros H. destruct (react_all_quiet inputs (fst startup) H) as [Hst Hc].
  exists (snd (react_all (fst startup) inputs)).
  split; [|exact Hc]. rewrite launch_effects, Hst. reflexivity.
Qed.

Lemma react_all_app pre post :
  forall st,
    react_all st (pre ++ post)
    = (fst (react_all (fst (react_all st pre)) post),
       snd (react_all st pre) ++ snd (react_all (fst (react_all st pre)) post)).
Proof.
  induction pre as [|input pre IH]; intros st.
  - cbn. destruct (react_all st post); reflexivity.
  - cbn [app react_all]. destruct (react st input) as [st1 effs1].
    rewrite IH. destruct (react_all st1 pre) as [st2 effs2]. cbn [fst snd].
    rewrite <- app_assoc. reflexivity.
Qed.

(** A signal that finds the launcher running, and what comes after it. *)
Lemma react_all_sig st s post :
  exited st = None ->
  react_all st (Sig s :: post)
  = (mkState (workers st) (Some 0%Z),
     ConsoleLog (String (Ascii.ascii_of_nat 10) "Shutting down crawler team...")
       :: kill_all (workers st) (signal_name s) ++ [Exit 0]).
Proof.
  intros H. cbn [react_all]. unfold react at 1. rewrite H.
  rewrite (react_all_exited post (mkState (workers st) (Some 0%Z)) 0%Z eq_refl).
  rewrite app_nil_r. reflexivity.
Qed.

(** X11. The first signal shuts the launcher down, once.  Whatever its
    workers have raised before, the launcher answers the first SIGINT or
    SIGTERM with the shutdown log line, that same signal to each of its
    three workers in spawn order, and [process.exit(0)]; and whatever
    comes after that signal (a second Ctrl+C, the [close] events of
    the workers it has just signalled) has no effect: no worker is
    signalled twice and nothing more is logged. *)
Theorem first_signal_shuts_down_once (pre : list Input) (s : Signal) (post : list Input) :
  forallb (fun input => negb (is_sig input)) pre = true ->
  launch (pre ++ Sig s :: post)
  = (mkState ["worker-1"; "worker-2"; "worker-3"]%string (Some 0%Z),
     snd (launch pre)
       ++ [ConsoleLog (String (Ascii.ascii_of_nat 10) "Shutting down crawler team...");
           Kill 0 (signal_name s);
           Kill 1 (signal_name s);
           Kill 2 (signal_name s);
           Exit 0]).
Proof.
  intros H. destruct (react_all_quiet pre (fst startup) H) as [Hst _].
  rewrite !launch_effects, react_all_app, Hst. cbn [snd].
  rewrite (react_all_sig (fst startup) s post eq_refl).
  cbn [fst snd]. rewrite <- app_assoc. reflexivity.
Qed.

(** X10 at work: two workers crash and one fails to start. *)
Lemma launcher_only_logs_until_signalled_witness :
  forallb (fun input => negb (is_sig input))
    [ChildClose 0 (Some 1%Z); ChildError 2 "spawn node ENOENT"; ChildClose 1 None] = true
  /\ exists logs,
       launch [ChildClose 0 (Some 1%Z); ChildError 2 "spawn node ENOENT"; ChildClose 1 None]
       = (mkState ["worker-1"; "worker-2"; "worker-3"]%string None, snd startup ++ logs)
       /\ forallb is_console logs = true.
Proof.
  split; [reflexivity|].
  apply (launcher_only_logs_until_signalled
           [ChildClose 0 (Some 1%Z); ChildError 2 "spawn node ENOENT"; ChildClose 1 None]
           eq_refl).
Defined.

(** X11 at work: worker-1 has crashed, then Ctrl+C is pressed twice and
    worker-2 closes. *)
Lemma first_signal_shuts_down_once_witness :
  forallb (fun input => negb (is_sig input)) [ChildClose 0 (Some 1%Z)] = true
  /\ launch ([ChildClose 0 (Some 1%Z)] ++ Sig SIGINT :: [Sig SIGINT; ChildClose 1 None])
     = (mkState ["worker-1"; "worker-2"; "worker-3"]%string (Some 0%Z),
        snd (launch [ChildClose 0 (Some 1%Z)])
          ++ [ConsoleLog (String (Ascii.ascii_of_nat 10) "Shutting down crawler team...");
              Kill 0 "SIGINT";
              Kill 1 "SIGINT";
              Kill 2 "SIGINT";
              Exit 0]).
Proof.
  split; [reflexivity|].
  apply (first_signal_shuts_down_once [ChildClose 0 (Some 1%Z)] SIGINT
           [Sig SIGINT; ChildClose 1 None] eq_refl).
Defined.

End LauncherMoreProofs.

(** ** The first job of a poll, and the others *)

Module FirstJobProofs.
Import Json Worker WorkerFacts WorkerProofs WorkerMoreProofs.
Local Open Scope list_scope.

(** In the queue, a job handed out by a pull is out of the unleased pool
    until something is reclaimed. *)
Lemma pulled_job_stays_out_of_pool pol ops max now job mid :
  job ∈ fst (Dispatch.lease pol max now (Dispatch.queue (Dispatch.run pol ops))) ->
  forallb (fun op => negb (Dispatch.is_reclaim op)) mid = true ->
  Dispatch.job_id job
  ∉ Dispatch.entry_id
      <$> Dispatch.pending
            (Dispatch.queue
               (Dispatch.run_from pol
                  (snd (Dispatch.step pol (Dispatch.run pol ops) (Dispatch.PullJobs max now)))
                  mid)).
Proof.
  intros Hj Hmid.
  pose proof (DispatchProofs.consistent_run pol ops) as Hs.
  set (s := Dispatch.run pol ops) in *.
  set (s1 := snd (Dispatch.step pol s (Dispatch.PullJobs max now))).
  assert (Hs1 : Dispatch.consistent s1) by apply DispatchProofs.consistent_step, Hs.
  pose proof (DispatchProofs.consistent_run_from pol mid s1 Hs1) as Hs2.
  apply DispatchProofs.lease_from_pool in Hj as [_ Hl].
  assert (Hl1 : Dispatch.job_id job
                ∈ Dispatch.lease_id <$> Dispatch.leased (Dispatch.queue s1)).
  { subst s1. cbn [Dispatch.step].
    destruct (Dispatch.lease pol max now (Dispatch.queue s)) as [jobs q]. exact Hl. }
  destruct (DispatchProofs.held_run_from pol mid (Dispatch.job_id job) s1 Hmid (or_introl Hl1))
    as [H|H].
  - apply DispatchProofs.leased_not_pending; assumption.
  - intros Hp.
    apply (Dispatch.queue_not_completed _ Hs2 (Dispatch.job_id job)); [|exact H].
    unfold Dispatch.queue_ids. apply elem_of_app. left. exact Hp.
Qed.

(** C9: when a poll returns a list of one job or more, the iteration is
    the poll, the calls of [processJob] on the first job, the log line of
    [run]'s catch clause if [processJob] threw, and the timer, whatever
    the rest of the list.  The first job is processed: unless a browser
    call is rejected or [job.url] cannot be read, its [url] is loaded,
    the page's content read and the result posted.  No call of the
    worker concerns a job further down the list: no page of theirs is
    loaded, no result of theirs posted, and no request hands them back.
    On the orchestrator's side, a job handed out by a pull stays out of
    the unleased pool whatever is pulled or submitted, until something
    is reclaimed; and what puts a leased job back is the reclaim of its
    expired lease. *)
Theorem only_first_job_is_processed
    (envURL : option string) (coerce : JsValue -> bool) (env : oracle) (i : nat)
    (response : Response) (data job : JsValue) (rest : list JsValue) :
  env _ (Fetch (get_jobs envURL)) i = inr response ->
  env _ (ResponseJson response) (S i) = inr data ->
  get_prop data "jobs" = inr (JArr (job :: rest)) ->
  (exists osj o,
      exec cycle_fuel env (S (S i)) (processJob envURL job) = (osj, o)
      /\ exec cycle_fuel env i (cycle envURL coerce)
         = (Obs (Fetch (get_jobs envURL)) (inr response)
              :: Obs (ResponseJson response) (inr data)
              :: osj
              ++ match o with
                 | Uncaught err =>
                     [Obs (ConsoleError "Error polling jobs:" (message err)) tt]
                 | _ => []
                 end
              ++ [sleep],
            Returned tt)
      /\ match o with
         | Returned _ =>
             exists b p url html x,
               get_prop job "url" = inr url
               /\ osj = [Obs (ChromiumLaunch true) (inr b);
                         Obs (BrowserNewPage b) (inr p);
                         Obs (PageGoto p url "networkidle") (inr tt);
                         Obs (PageContent p) (inr html);
                         Obs (BrowserClose b) (inr tt);
                         Obs (Fetch (post_result envURL (result_of url html))) x]
                        ++ match x with
                           | inl err =>
                               [Obs (ConsoleError "Failed to post result:"
                                       (message err)) tt]
                           | inr _ => []
                           end
                        ++ [Obs (ConsoleLog
                                   (LJson (stringify_obj (result_of url html)))) tt]
         | Uncaught err =>
             requests osj = []
             /\ Forall (fun url => get_prop job "url" = inr url) (gotos osj)
             /\ head (List.map call_of osj) = Some (Call (ChromiumLaunch true))
             /\ (get_prop job "url" = inl err
                 \/ match last osj with
                    | Some o => rejection o = Some err
                    | None => False
                    end)
         | Running => False
         end)
  /\ (forall pol ops max now j mid,
         j ∈ fst (Dispatch.lease pol max now (Dispatch.queue (Dispatch.run pol ops))) ->
         forallb (fun op => negb (Dispatch.is_reclaim op)) mid = true ->
         Dispatch.job_id j
         ∉ Dispatch.entry_id
             <$> Dispatch.pending
                   (Dispatch.queue
                      (Dispatch.run_from pol
                         (snd (Dispatch.step pol (Dispatch.run pol ops)
                                 (Dispatch.PullJobs max now)))
                         mid)))
  /\ (forall pol ops op id,
         id ∈ Dispatch.lease_id <$> Dispatch.leased (Dispatch.queue (Dispatch.run pol ops)) ->
         id ∈ Dispatch.entry_id
                <$> Dispatch.pending
                      (Dispatch.queue (snd (Dispatch.step pol (Dispatch.run pol ops) op))) ->
         exists now l,
           op = Dispatch.Reclaim now
           /\ l ∈ Dispatch.leased (Dispatch.queue (Dispatch.run pol ops))
           /\ Dispatch.lease_id l = id
           /\ Dispatch.expired now l).
Proof.
  intros H1 H2 H3. split; [|split].
  - destruct (exec cycle_fuel env (S (S i)) (processJob envURL job)) as [osj o] eqn:Hj.
    exists osj, o. split; [reflexivity|]. split.
    + rewrite (cycle_exec envURL coerce env i).
      rewrite (cycle_first_job envURL coerce env i response data job rest H1 H2 H3).
      rewrite (guarded_processJob envURL job env (S (S i)) osj o Hj). cbn [fst].
      rewrite <- app_assoc. reflexivity.
    + exact (processJob_outcome envURL job env (S (S i)) osj o Hj).
  - intros pol ops max now j mid. apply pulled_job_stays_out_of_pool.
  - intros pol ops op id Hl Hp.
    destruct (DispatchProofs.back_to_pool_only_by_reclaim pol _ op id
                (DispatchProofs.consistent_run pol ops) Hl Hp)
      as (now & l & ? & ? & ? & ?).
    exists now, l. auto.
Qed.

(** C9 at work: the first poll of a healthy orchestrator returns
    [job_a; job_b]; the page of [job_a] is loaded and posted, and nothing
    is done about [job_b]. *)
Lemma only_first_job_is_processed_witness :
  env_serving 200 _ (Fetch (get_jobs None)) 1 = inr (mkResponse 200 1)
  /\ env_serving 200 _ (ResponseJson (mkResponse 200 1)) 2
     = inr (JObj [("jobs", JArr [job_a; job_b])])
  /\ get_prop (JObj [("jobs", JArr [job_a; job_b])]) "jobs" = inr (JArr [job_a; job_b])
  /\ exec cycle_fuel (env_serving 200) 1 (cycle None (fun _ => false))
     = ([Obs (Fetch (get_jobs None)) (inr (mkResponse 200 1));
         Obs (ResponseJson (mkResponse 200 1)) (inr (JObj [("jobs", JArr [job_a; job_b])]));
         Obs (ChromiumLaunch true) (inr 1);
         Obs (BrowserNewPage 1) (inr 2);
         Obs (PageGoto 2 (JStr "http://a.example/") "networkidle") (inr tt);
         Obs (PageContent 2) (inr "<html></html>");
         Obs (BrowserClose 1) (inr tt);
         Obs (Fetch (post_result None (result_of (JStr "http://a.example/") "<html></html>")))
           (inr (mkResponse 200 8));
         Obs (ConsoleLog (LJson (stringify_obj
                                   (result_of (JStr "http://a.example/") "<html></html>")))) tt;
         sleep],
        Returned tt).
Proof.
  split; [reflexivity|]. split; [reflexivity|]. split; [reflexivity|].
  destruct (only_first_job_is_processed None (fun _ => false) (env_serving 200) 1
              (mkResponse 200 1) (JObj [("jobs", JArr [job_a; job_b])]) job_a [job_b]
              eq_refl eq_refl eq_refl)
    as [(osj & o & Hj & Hc & _) _].
  vm_compute in Hj. injection Hj as <- <-. exact Hc.
Defined.

End FirstJobProofs.
